(** * ChatBot-RAG: the retrieval core, embedded in Rocq

    A shallow embedding of [database.py] (the SQLite-backed store),
    [embeddings.py] (the scoring functions) and [retriever.py] (the three
    retrieval strategies and the context assembler), with the properties
    of the specification stated over it.

    Conventions.
    - A Python [int] is a [Z]; a Python [str] is a [string]; [bytes] is a
      [list byte].
    - A [numpy.float32] is its 32-bit IEEE pattern, a [Z] in [0, 2^32).
      A one-dimensional [float32] array is a list of such patterns.
    - A raised exception is the [Raise] case of [result]. *)

From Stdlib Require Import ZArith List Lia Bool.
From Stdlib Require Import Strings.Byte.
From Stdlib Require Import QArith Qcanon.
From stdpp Require Import base list strings gmap numbers pretty.

Local Open Scope string_scope.
Local Open Scope list_scope.
Local Open Scope Z_scope.

(** ** Exceptions and results *)

(** The exceptions the modelled code can raise.  Each carries what its
    message is built from. *)
Inductive exn : Type :=
  | EmbeddingError (cause : string)
      (* embeddings.py:37, Exception("Error getting embedding: ...") *)
  | SqliteError (msg : string)
      (* sqlite3.Error from connect/execute/fetchall *)
  | ShapesNotAligned (n m : nat)
      (* ValueError of np.dot on 1-D arrays of lengths n and m *)
  | CannotBroadcast (n m : nat)
      (* ValueError of vec1 - vec2 on shapes (n,) and (m,) *)
  | BufferSize (len : nat).
      (* ValueError of np.frombuffer: size not a multiple of 4 *)

Inductive result (A : Type) : Type :=
  | Ok (a : A)
  | Raise (e : exn).
Arguments Ok {A} a.
Arguments Raise {A} e.

Definition rbind {A B} (r : result A) (k : A → result B) : result B :=
  match r with
  | Ok a => k a
  | Raise e => Raise e
  end.

Fixpoint rmap_list {A B} (f : A → result B) (l : list A) : result (list B) :=
  match l with
  | [] => Ok []
  | x :: l' =>
      rbind (f x) (λ y, rbind (rmap_list f l') (λ ys, Ok (y :: ys)))
  end.

(** ** Binary encoding of float32 arrays *)

Module Codec.

Definition f32 := Z.
Definition ndarray := list f32.

Definition is_f32 (w : Z) : Prop := 0 ≤ w < 2 ^ 32.

Definition byte_of_Z (z : Z) : byte :=
  match Byte.of_N (Z.to_N (Z.land z 255)) with
  | Some b => b
  | None => "000"%byte
  end.

Definition Z_of_byte (b : byte) : Z := Z.of_N (Byte.to_N b).

(** The four bytes of one element, least significant first. *)
Definition f32_bytes (w : f32) : list byte :=
  [ byte_of_Z w; byte_of_Z (Z.shiftr w 8);
    byte_of_Z (Z.shiftr w 16); byte_of_Z (Z.shiftr w 24) ].

Definition f32_of_bytes (b0 b1 b2 b3 : byte) : f32 :=
  Z.lor (Z_of_byte b0)
    (Z.lor (Z.shiftl (Z_of_byte b1) 8)
       (Z.lor (Z.shiftl (Z_of_byte b2) 16) (Z.shiftl (Z_of_byte b3) 24))).

(** [embedding.tobytes()] on a float32 array. *)
Definition tobytes (v : ndarray) : list byte := flat_map f32_bytes v.

(** Elements of a buffer whose length is a multiple of four; [None] when
    bytes are left over. *)
Fixpoint words_of_bytes (bs : list byte) : option ndarray :=
  match bs with
  | [] => Some []
  | b0 :: b1 :: b2 :: b3 :: rest =>
      match words_of_bytes rest with
      | Some ws => Some (f32_of_bytes b0 b1 b2 b3 :: ws)
      | None => None
      end
  | _ => None
  end.

(** [np.frombuffer(embedding_bytes, dtype=np.float32)]. *)
Definition frombuffer (bs : list byte) : result ndarray :=
  match words_of_bytes bs with
  | Some ws => Ok ws
  | None => Raise (BufferSize (length bs))
  end.

End Codec.

(** ** The SQLite store of [database.py] *)

Module Db.
Import Codec.

Record document_row := {
  d_doc_id : Z;
  d_file_name : string;
  d_uploaded_at : string }.

Record chunk_row := {
  c_chunk_id : Z;
  c_doc_id : Z;
  c_text : string;
  c_embedding : list byte }.

Record chat_row := {
  h_chat_id : Z;
  h_user_input : string;
  h_bot_output : string;
  h_timestamp : string }.

(** The database file: three tables, each in rowid order, and the
    [sqlite_sequence] table that AUTOINCREMENT keeps (table name to the
    largest rowid ever handed out). *)
Record t := {
  documents : list document_row;
  chunks : list chunk_row;
  chats : list chat_row;
  sqlite_sequence : gmap string Z }.

(** [_init_database] on a fresh file. *)
Definition init : t :=
  {| documents := []; chunks := []; chats := []; sqlite_sequence := ∅ |}.

(** The rowid AUTOINCREMENT picks: one more than the largest the table
    has ever had. *)
Definition next_rowid (tbl : string) (present : list Z) (s : t) : Z :=
  Z.max (default 0 (sqlite_sequence s !! tbl)) (foldr Z.max 0 present) + 1.

(** [add_document(file_name)]; [now] is CURRENT_TIMESTAMP. *)
Definition add_document (s : t) (file_name now : string) : t * Z :=
  let id := next_rowid "documents" (d_doc_id <$> documents s) s in
  ({| documents := documents s ++
        [{| d_doc_id := id; d_file_name := file_name; d_uploaded_at := now |}];
      chunks := chunks s;
      chats := chats s;
      sqlite_sequence := <["documents" := id]> (sqlite_sequence s) |}, id).

(** [add_chunk(doc_id, text, embedding)].  The schema declares a foreign
    key, but the connection never issues [PRAGMA foreign_keys = ON], so
    SQLite does not check that [doc_id] names a document. *)
Definition add_chunk (s : t) (doc_id : Z) (text : string) (embedding : ndarray) : t :=
  let id := next_rowid "chunks" (c_chunk_id <$> chunks s) s in
  let embedding_bytes := tobytes embedding in
  {| documents := documents s;
     chunks := chunks s ++
       [{| c_chunk_id := id; c_doc_id := doc_id; c_text := text;
           c_embedding := embedding_bytes |}];
     chats := chats s;
     sqlite_sequence := <["chunks" := id]> (sqlite_sequence s) |}.

(** [add_chat(user_input, bot_output)]. *)
Definition add_chat (s : t) (user_input bot_output now : string) : t :=
  let id := next_rowid "chats" (h_chat_id <$> chats s) s in
  {| documents := documents s;
     chunks := chunks s;
     chats := chats s ++
       [{| h_chat_id := id; h_user_input := user_input;
           h_bot_output := bot_output; h_timestamp := now |}];
     sqlite_sequence := <["chats" := id]> (sqlite_sequence s) |}.

(** The loop shared by [get_all_chunks] and [get_document_chunks]: decode
    the blob of every fetched row. *)
Definition decode_row (r : chunk_row) : result (Z * string * ndarray) :=
  rbind (frombuffer (c_embedding r)) (λ embedding,
    Ok (c_chunk_id r, c_text r, embedding)).

Definition get_all_chunks (s : t) : result (list (Z * string * ndarray)) :=
  rmap_list decode_row (chunks s).

Definition get_document_chunks (s : t) (doc_id : Z)
  : result (list (Z * string * ndarray)) :=
  rmap_list decode_row (filter (λ r, c_doc_id r = doc_id) (chunks s)).

(** The two statements of [delete_document], in the order they run. *)
Definition delete_chunks_of (doc_id : Z) (s : t) : t :=
  {| documents := documents s;
     chunks := filter (λ r, c_doc_id r ≠ doc_id) (chunks s);
     chats := chats s;
     sqlite_sequence := sqlite_sequence s |}.

Definition delete_document_row (doc_id : Z) (s : t) : t :=
  {| documents := filter (λ r, d_doc_id r ≠ doc_id) (documents s);
     chunks := chunks s;
     chats := chats s;
     sqlite_sequence := sqlite_sequence s |}.

(** [delete_document(doc_id)]. *)
Definition delete_document (s : t) (doc_id : Z) : t :=
  delete_document_row doc_id (delete_chunks_of doc_id s).

End Db.

(** ** What the model leaves to the Python runtime *)

(** Floating-point numbers are kept abstract: [F] is the type of the
    numbers that scoring produces and compares (numpy and Python floats),
    with the operations the source applies to them.  Rounding, summation
    order inside BLAS, NaN and infinities are whatever the instance
    says; the theorems name the laws they rely on.  The iteration order
    of a Python [set] of chunk ids is likewise a parameter. *)
Class Runtime (F : Type) := {
  f32_value : Z → F;          (* the number a float32 pattern denotes *)
  fzero : F;                  (* 0 and 0.0 *)
  fone : F;                   (* 1 *)
  ftwo : F;                   (* 2.0 *)
  finf : F;                   (* float('inf') *)
  fadd : F → F → F;
  fsub : F → F → F;
  fmul : F → F → F;
  fdiv : F → F → F;
  fsqrt : F → F;
  flt : F → F → bool;         (* x < y *)
  fle : F → F → bool;         (* x <= y *)
  feq : F → F → bool;         (* x == y *)
  fmt3 : F → string;          (* f"{x:.3f}" *)
  set_order : gset Z → list Z (* the order in which a set is iterated *)
}.


(** What a zero vector needs for its norm to be zero. *)
Class ZeroLaws (F : Type) `{Runtime F} : Prop := {
  f32_value_0 : f32_value 0 = fzero;
  fmul_0_0 : fmul fzero fzero = fzero;
  fadd_0_0 : fadd fzero fzero = fzero;
  fsqrt_0 : fsqrt fzero = fzero;
  feq_0_0 : feq fzero fzero = true
}.

(** Weights 1 and 0 act as in a semiring. *)
Class WeightLaws (F : Type) `{Runtime F} : Prop := {
  fmul_1_l : ∀ x : F, fmul fone x = x;
  fmul_0_l : ∀ x : F, fmul fzero x = fzero;
  fadd_0_r : ∀ x : F, fadd x fzero = x
}.

(** A set is iterated once per element. *)
Class SetLaws (F : Type) `{Runtime F} : Prop := {
  set_order_perm : ∀ s : gset Z, set_order s ≡ₚ elements s
}.

(** ** [embeddings.py]: the scoring functions *)

Module Scoring.
Import Codec.

Section scoring.
Context {F : Type} `{Runtime F}.

Definition values (v : ndarray) : list F := f32_value <$> v.

(** The sum of products of [np.dot] on arrays of one length. *)
Definition dot_sum (a b : list F) : F :=
  foldl (λ acc xy, fadd acc (fmul xy.1 xy.2)) fzero (zip a b).

(** [np.dot(vec1, vec2)] on one-dimensional arrays. *)
Definition dot (a b : list F) : result F :=
  if decide (length a = length b) then Ok (dot_sum a b)
  else Raise (ShapesNotAligned (length a) (length b)).

(** [np.linalg.norm(x)]: the square root of [x.dot(x)]. *)
Definition norm (a : list F) : F := fsqrt (dot_sum a a).

(** [vec1 - vec2] with numpy broadcasting of a one-element array. *)
Definition broadcast_sub (a b : list F) : result (list F) :=
  if decide (length a = length b) then Ok (zip_with fsub a b)
  else
    match a, b with
    | [x], _ => Ok ((λ y, fsub x y) <$> b)
    | _, [y] => Ok ((λ x, fsub x y) <$> a)
    | _, _ => Raise (CannotBroadcast (length a) (length b))
    end.

Definition cosine_similarity (vec1 vec2 : ndarray) : result F :=
  rbind (dot (values vec1) (values vec2)) (λ dot_product,
    let norm1 := norm (values vec1) in
    let norm2 := norm (values vec2) in
    if feq norm1 fzero || feq norm2 fzero then Ok fzero
    else Ok (fdiv dot_product (fmul norm1 norm2))).

Definition l2_distance (vec1 vec2 : ndarray) : result F :=
  rbind (broadcast_sub (values vec1) (values vec2)) (λ diff,
    Ok (norm diff)).

End scoring.
End Scoring.

(** ** Python list operations used by [retriever.py] *)

Module Py.

(** [l[:k]]: a negative bound counts from the end. *)
Definition slice_to {A} (l : list A) (k : Z) : list A :=
  if decide (0 ≤ k) then take (Z.to_nat k) l
  else take (length l - Z.to_nat (- k)) l.

(** [list.sort] is stable and compares with [<] only.  The reference
    stable sort: insert each element, from the last to the first, in
    front of the first element that is not smaller than it. *)
Fixpoint insert_by {A} (lt : A → A → bool) (x : A) (l : list A) : list A :=
  match l with
  | [] => [x]
  | y :: l' => if lt y x then y :: insert_by lt x l' else x :: y :: l'
  end.

Definition stable_sort {A} (lt : A → A → bool) (l : list A) : list A :=
  foldr (insert_by lt) [] l.

(** [l.sort(key=..., reverse=r)]: with [reverse=True] CPython reverses
    the list, sorts it stably, and reverses the outcome, which keeps
    equal keys in their original order. *)
Definition sort {A} (lt : A → A → bool) (reverse : bool) (l : list A) : list A :=
  if reverse then rev (stable_sort lt (rev l)) else stable_sort lt l.

(** [max(a, b)]: the first argument unless the second is greater. *)
Definition max {F} `{Runtime F} (a b : F) : F := if flt a b then b else a.

(** [next((y for x in l if p x), default)] *)
Fixpoint first_match {A B} (p : A → bool) (f : A → B) (l : list A) (d : B) : B :=
  match l with
  | [] => d
  | x :: l' => if p x then f x else first_match p f l' d
  end.

(** [{k: v for ... in l}]: a later entry replaces an earlier one. *)
Definition dict_of {A V} (k : A → Z) (v : A → V) (l : list A) : gmap Z V :=
  foldl (λ m x, <[k x := v x]> m) ∅ l.

End Py.

(** ** [retriever.py] *)

Module Retriever.
Import Codec Scoring.

(** One line on standard output: [print(f"{prefix}{str(e)}")]. *)
Inductive printed : Type := Print (prefix : string) (e : exn).

(** Everything a retrieval can observe or change: the database file,
    the embedding service (the reply to each successive request: a
    vector, or the text of the client's exception), storage faults (the
    n-th read of the store fails when this is [Some]), and what has been
    printed so far. *)
Record world := {
  db : Db.t;
  ollama : nat → string → string + ndarray;
  sqlite_fault : nat → option string;
  embed_calls : nat;
  db_calls : nat;
  stdout : list printed }.

(** State and exceptions: a computation returns or raises, and leaves
    a world behind either way. *)
Definition M (A : Type) : Type := world → result A * world.

Definition ret {A} (a : A) : M A := λ w, (Ok a, w).

Definition bind {A B} (m : M A) (k : A → M B) : M B :=
  λ w, match m w with
       | (Ok a, w') => k a w'
       | (Raise e, w') => (Raise e, w')
       end.

Definition lift {A} (r : result A) : M A := λ w, (r, w).

(** [try: body  except Exception as e: handler e] *)
Definition try_except {A} (body : M A) (handler : exn → M A) : M A :=
  λ w, match body w with
       | (Ok a, w') => (Ok a, w')
       | (Raise e, w') => handler e w'
       end.

Declare Scope py_scope.
Delimit Scope py_scope with py.
Notation "x <- m ;; k" := (bind m (λ x, k))
  (at level 100, m at next level, right associativity) : py_scope.
Local Open Scope py_scope.

(** The three ways a retrieval changes the world. *)
Definition tick_embed (w : world) : world :=
  {| db := db w; ollama := ollama w; sqlite_fault := sqlite_fault w;
     embed_calls := S (embed_calls w); db_calls := db_calls w;
     stdout := stdout w |}.

Definition tick_db (w : world) : world :=
  {| db := db w; ollama := ollama w; sqlite_fault := sqlite_fault w;
     embed_calls := embed_calls w; db_calls := S (db_calls w);
     stdout := stdout w |}.

Definition emit (p : printed) (w : world) : world :=
  {| db := db w; ollama := ollama w; sqlite_fault := sqlite_fault w;
     embed_calls := embed_calls w; db_calls := db_calls w;
     stdout := stdout w ++ [p] |}.

Definition print (prefix : string) (e : exn) : M unit :=
  λ w, (Ok (), emit (Print prefix e) w).

(** [self.embedding_manager.get_embedding(query)]: any failure of the
    client is re-raised as [Exception("Error getting embedding: ...")]. *)
Definition get_embedding (text : string) : M ndarray :=
  λ w,
    (match ollama w (embed_calls w) text with
     | inr embedding => Ok embedding
     | inl cause => Raise (EmbeddingError cause)
     end, tick_embed w).

(** [self.db_manager.get_all_chunks()]. *)
Definition get_all_chunks : M (list (Z * string * ndarray)) :=
  λ w,
    (match sqlite_fault w (db_calls w) with
     | Some msg => Raise (SqliteError msg)
     | None => Db.get_all_chunks (db w)
     end, tick_db w).

(** The first two statements of both retrievals: obtain the query
    embedding, then read all chunks. *)
Definition fetch (query : string) : M (ndarray * list (Z * string * ndarray)) :=
  query_embedding <- get_embedding query ;;
  chunks <- get_all_chunks ;;
  ret (query_embedding, chunks).

Section retriever.
Context {F : Type} `{Runtime F}.

(** A result tuple [(chunk_id, text, score)]. *)
Definition scored : Type := Z * string * F.

Definition score_of (x : scored) : F := x.2.
Definition id_of (x : scored) : Z := x.1.1.
Definition text_of (x : scored) : string := x.1.2.

(** [key=lambda x: x[2]]: tuples are compared by their score. *)
Definition by_score (x y : scored) : bool := flt (score_of x) (score_of y).

(** The scoring loop of both retrievals: the first chunk whose score
    cannot be computed raises. *)
Definition score_chunks (metric : ndarray → ndarray → result F)
    (query_embedding : ndarray) (chunks : list (Z * string * ndarray))
  : result (list scored) :=
  rmap_list (λ c, let '(chunk_id, text, chunk_embedding) := c in
               rbind (metric query_embedding chunk_embedding) (λ s,
                 Ok (chunk_id, text, s)))
            chunks.

Definition retrieve_similar_chunks (query : string) (top_k : Z)
    (similarity_threshold : F) : M (list scored) :=
  try_except
    (query_embedding <- get_embedding query ;;
     chunks <- get_all_chunks ;;
     match chunks with
     | [] => ret []
     | _ =>
       similarities <- lift (score_chunks cosine_similarity query_embedding chunks) ;;
       let similarities := Py.sort by_score true similarities in
       let filtered_results :=
         filter (λ x, fle similarity_threshold (score_of x) = true) similarities in
       ret (Py.slice_to filtered_results top_k)
     end)
    (λ e, _ <- print "Error in similarity search: " e ;; ret []).

Definition retrieve_by_l2_distance (query : string) (top_k : Z)
    (max_distance : F) : M (list scored) :=
  try_except
    (query_embedding <- get_embedding query ;;
     chunks <- get_all_chunks ;;
     match chunks with
     | [] => ret []
     | _ =>
       distances <- lift (score_chunks l2_distance query_embedding chunks) ;;
       let distances := Py.sort by_score false distances in
       let filtered_results :=
         filter (λ x, fle (score_of x) max_distance = true) distances in
       ret (Py.slice_to filtered_results top_k)
     end)
    (λ e, _ <- print "Error in L2 distance search: " e ;; ret []).

(** The separator of ["\n\n".join(...)]. *)
Definition blank_line : string :=
  String (Ascii.ascii_of_nat 10) (String (Ascii.ascii_of_nat 10) EmptyString).

Fixpoint join (sep : string) (parts : list string) : string :=
  match parts with
  | [] => ""
  | [p] => p
  | p :: rest => p +:+ sep +:+ join sep rest
  end.

Definition len (s : string) : Z := Z.of_nat (String.length s).

Definition chunk_with_score (x : scored) : string :=
  "[Score: " +:+ fmt3 (score_of x) +:+ "] " +:+ text_of x.

(** The loop of [build_context_from_chunks], from [current_length] on:
    the parts appended until the [break]. *)
Fixpoint context_parts (chunks : list scored) (current_length max_context_length : Z)
  : list string :=
  match chunks with
  | [] => []
  | x :: rest =>
      let part := chunk_with_score x in
      if decide (current_length + len part > max_context_length) then []
      else part :: context_parts rest (current_length + len part) max_context_length
  end.

Definition build_context_from_chunks (chunks : list scored) (max_context_length : Z)
  : string :=
  match chunks with
  | [] => ""
  | _ => join blank_line (context_parts chunks 0 max_context_length)
  end.

(** The scoring loop of [hybrid_search] for one chunk id. *)
Definition combine (cosine_results l2_results : list scored)
    (cosine_dict l2_dict : gmap Z F) (cosine_weight l2_weight : F)
    (chunk_id : Z) : scored :=
  let cosine_score := default fzero (cosine_dict !! chunk_id) in
  let l2_distance := default finf (l2_dict !! chunk_id) in
  let l2_score := Py.max fzero (fsub fone (fdiv l2_distance ftwo)) in
  let combined_score :=
    fadd (fmul cosine_weight cosine_score) (fmul l2_weight l2_score) in
  let text :=
    Py.first_match (λ x, bool_decide (id_of x = chunk_id)) text_of cosine_results
      (Py.first_match (λ x, bool_decide (id_of x = chunk_id)) text_of l2_results "") in
  (chunk_id, text, combined_score).

(** The body of [hybrid_search] after the two retrievals. *)
Definition merge_results (cosine_results l2_results : list scored) (top_k : Z)
    (cosine_weight l2_weight : F) : list scored :=
  let cosine_dict := Py.dict_of id_of score_of cosine_results in
  let l2_dict := Py.dict_of id_of score_of l2_results in
  let all_chunk_ids : gset Z := dom cosine_dict ∪ dom l2_dict in
  let combined_scores :=
    combine cosine_results l2_results cosine_dict l2_dict
            cosine_weight l2_weight <$> set_order all_chunk_ids in
  let combined_scores := Py.sort by_score true combined_scores in
  Py.slice_to combined_scores top_k.

Definition hybrid_search (query : string) (top_k : Z)
    (cosine_weight l2_weight : F) : M (list scored) :=
  try_except
    (cosine_results <- retrieve_similar_chunks query (top_k * 2) fzero ;;
     l2_results <- retrieve_by_l2_distance query (top_k * 2) finf ;;
     ret (merge_results cosine_results l2_results top_k cosine_weight l2_weight))
    (λ e, _ <- print "Error in hybrid search: " e ;; ret []).

End retriever.
End Retriever.

(** ** An instance: exact rational arithmetic *)

(** Numbers are canonical rationals and the four operations are exact;
    [float('inf')] is 2^128, above every finite float32; a set is
    iterated in the order of its element list. *)
Module Exact.
Import Codec.

(** The rational a finite float32 pattern denotes: sign bit 31, exponent
    bits 23 to 30, fraction bits 0 to 22.  Infinities and NaN (exponent
    255) denote no rational and are read as 0. *)
Definition f32_rational (w : Z) : Q :=
  let sign := Z.testbit w 31 in
  let e := Z.land (Z.shiftr w 23) 255 in
  let m := Z.land w (2 ^ 23 - 1) in
  let magnitude :=
    if e =? 255 then 0%Q
    else if e =? 0 then (inject_Z m * Qpower 2 (-149))%Q
    else (inject_Z (2 ^ 23 + m) * Qpower 2 (e - 150))%Q in
  if sign then Qopp magnitude else magnitude.

(** The square root, exact on squares of rationals and rounded down on
    the numerator otherwise; 0 on negative numbers. *)
Definition sqrt_rational (q : Q) : Q :=
  Qmake (Z.sqrt (Qnum q * Zpos (Qden q))) (Qden q).

Definition pad3 (z : Z) : string :=
  if z <? 10 then "00" +:+ pretty z
  else if z <? 100 then "0" +:+ pretty z
  else pretty z.

(** Three decimals, the last one rounded half to even. *)
Definition fmt3_rational (q : Q) : string :=
  let d := Zpos (Qden q) in
  let x := Z.abs (Qnum q) * 1000 in
  let lo := x / d in
  let r := x mod d in
  let k := if (d <? 2 * r) || ((d =? 2 * r) && Z.odd lo) then lo + 1 else lo in
  (if Qnum q <? 0 then "-" else "") +:+ pretty (k / 1000) +:+ "." +:+ pad3 (k mod 1000).

#[export] Instance runtime : Runtime Qc := {|
  f32_value w := Q2Qc (f32_rational w);
  fzero := 0%Qc;
  fone := 1%Qc;
  ftwo := Q2Qc 2;
  finf := Q2Qc (inject_Z (2 ^ 128));
  fadd := Qcplus;
  fsub := Qcminus;
  fmul := Qcmult;
  fdiv := Qcdiv;
  fsqrt q := Q2Qc (sqrt_rational q);
  flt x y := bool_decide (x < y)%Qc;
  fle x y := bool_decide (x ≤ y)%Qc;
  feq x y := bool_decide (x = y);
  fmt3 q := fmt3_rational q;
  set_order := elements
|}.

End Exact.

(** ** Order of results *)

Module Ranking.
Import Retriever.




Section ranking.
Context {F : Type} `{Runtime F}.





End ranking.
End Ranking.

(** ** Sample stores and services, over exact arithmetic *)

Module Samples.
Import Codec Retriever Exact.

#[export] Instance exn_eq_dec : EqDecision exn.
Proof. solve_decision. Defined.

#[export] Instance printed_eq_dec : EqDecision printed.
Proof. solve_decision. Defined.

#[export] Instance result_eq_dec {A} `{EqDecision A} : EqDecision (result A).
Proof. solve_decision. Defined.

(** float32 patterns *)
Definition one : f32 := 1065353216.        (* 0x3F800000 = 1.0 *)
Definition half : f32 := 1056964608.       (* 0x3F000000 = 0.5 *)
Definition zero : f32 := 0.                (* 0x00000000 = 0.0 *)

(** A world with no storage fault and nothing printed yet. *)
Definition world_of (store : Db.t) (service : nat → string → string + ndarray) : world :=
  {| db := store; ollama := service; sqlite_fault := λ _, None;
     embed_calls := 0; db_calls := 0; stdout := [] |}.

(** The service answers every request with [v]. *)
Definition always (v : ndarray) : nat → string → string + ndarray :=
  λ _ _, inr v.

(** The service refuses its first request and answers the later ones. *)
Definition down_once (v : ndarray) : nat → string → string + ndarray :=
  λ n _, match n with
         | O => inl "connection refused"
         | S _ => inr v
         end.

Definition one_document : Db.t := (Db.add_document Db.init "notes.txt" "2024-01-01 00:00:00").1.

(** Two chunks along the first axis. *)
Definition two_chunks : Db.t :=
  Db.add_chunk (Db.add_chunk one_document 1 "first" [one; zero]) 1 "second" [half; zero].

(** One chunk along the first axis. *)
Definition one_chunk : Db.t :=
  Db.add_chunk one_document 1 "first" [one; zero].


(** One chunk of dimension three. *)
Definition wide_chunk : Db.t :=
  Db.add_chunk one_document 1 "wide" [one; zero; zero].


(** The service refuses every request. *)
Definition refusing : nat → string → string + ndarray :=
  λ _ _, inl "connection refused".

(** The result of a run, without the world. *)
Definition returned {A} (r : result A * world) : result A := r.1.

(** What a run has printed. *)
Definition output {A} (r : result A * world) : list printed := stdout r.2.

(** Equalities between computed results are decided. *)
Ltac decided := apply (bool_decide_unpack _); vm_compute; exact I.

End Samples.

(** ** Further operations of the store, the scoring and the callers *)

(** Laws of the arithmetic that hold for IEEE floats: multiplication
    commutes and a difference and its opposite have the same square. *)
Class SymLaws (F : Type) `{Runtime F} : Prop := {
  fmul_comm : ∀ x y : F, fmul x y = fmul y x;
  fsub_square_sym :
    ∀ x y : F, fmul (fsub x y) (fsub x y) = fmul (fsub y x) (fsub y x)
}.

(** Sequences of calls on the store. *)
Module DbOps.
Import Codec Db.

Inductive op : Type :=
  | AddDocument (file_name now : string)
  | AddChunk (doc_id : Z) (text : string) (embedding : ndarray)
  | AddChat (user_input bot_output now : string)
  | DeleteDocument (doc_id : Z).

Definition exec (s : Db.t) (o : op) : Db.t :=
  match o with
  | AddDocument file_name now => (add_document s file_name now).1
  | AddChunk doc_id text embedding => add_chunk s doc_id text embedding
  | AddChat user_input bot_output now => add_chat s user_input bot_output now
  | DeleteDocument doc_id => delete_document s doc_id
  end.

Definition run (s : Db.t) (ops : list op) : Db.t := foldl exec s ops.

(** The counter AUTOINCREMENT keeps for a table. *)
Definition counter (tbl : string) (s : Db.t) : Z :=
  default 0 (sqlite_sequence s !! tbl).

(** Primary keys: the ids of each table are positive, pairwise distinct
    and not above the table's counter. *)
Definition keys_ok (tbl : string) (ids : list Z) (s : Db.t) : Prop :=
  NoDup ids ∧ ∀ id, id ∈ ids → 0 < id ≤ counter tbl s.

(** The call stores a float32 array, if it stores one. *)
Definition f32_op (o : op) : Prop :=
  match o with
  | AddChunk _ _ embedding => Forall is_f32 embedding
  | _ => True
  end.

(** Every blob of the chunks table is the encoding of a float32 array,
    as [add_chunk] writes it. *)
Definition well_encoded (s : Db.t) : Prop :=
  ∀ r, r ∈ chunks s → ∃ v, Forall is_f32 v ∧ c_embedding r = tobytes v.

End DbOps.

(** The two ordered queries of [database.py].  SQLite leaves the order
    of rows with equal sort keys open, so the sorted scan is a parameter:
    [ORDER BY uploaded_at DESC] and [ORDER BY timestamp DESC]. *)
Class SqlOrder := {
  order_documents : list Db.document_row → list Db.document_row;
  order_chats : list Db.chat_row → list Db.chat_row
}.

(** A sorted scan returns each row once. *)
Class SqlOrderLaws `{SqlOrder} : Prop := {
  order_documents_perm : ∀ l, order_documents l ≡ₚ l;
  order_chats_perm : ∀ l, order_chats l ≡ₚ l
}.

Module DbQueries.
Import Db.

Section queries.
Context `{SqlOrder}.

(** [LIMIT ?]: a negative limit is no limit. *)
Definition sql_limit {A} (limit : Z) (l : list A) : list A :=
  if decide (limit < 0) then l else take (Z.to_nat limit) l.

(** [get_documents()]. *)
Definition get_documents (s : Db.t) : list (Z * string * string) :=
  (λ r, (d_doc_id r, d_file_name r, d_uploaded_at r)) <$> order_documents (documents s).

(** [get_chat_history(limit)]. *)
Definition get_chat_history (s : Db.t) (limit : Z) : list (string * string * string) :=
  (λ r, (h_user_input r, h_bot_output r, h_timestamp r)) <$>
    sql_limit limit (order_chats (chats s)).

End queries.
End DbQueries.

(** [EmbeddingManager.get_embeddings_batch] *)
Module Batch.
Import Codec Retriever.

Local Open Scope py_scope.

(** Exceptions outside [exn]: [range()] refuses a zero step. *)
Inductive py_error : Type :=
  | Raised (e : exn)
  | RangeStepZero.

(** [range(0, stop, step)], [None] for a zero step. *)
Definition range0 (stop step : Z) : option (list Z) :=
  if decide (step = 0) then None
  else if decide (0 < step) then
    Some ((λ k, Z.of_nat k * step) <$> seq 0 (Z.to_nat ((stop + step - 1) / step)))
  else
    Some ((λ k, Z.of_nat k * step) <$> seq 0 (Z.to_nat ((- stop - step - 1) / - step))).

(** [l[lo:hi]] for bounds that are not negative. *)
Definition slice {A} (l : list A) (lo hi : Z) : list A :=
  take (Z.to_nat hi - Z.to_nat lo) (drop (Z.to_nat lo) l).

Fixpoint mapM {A B} (f : A → M B) (l : list A) : M (list B) :=
  match l with
  | [] => ret []
  | x :: l' => y <- f x ;; ys <- mapM f l' ;; ret (y :: ys)
  end.

(** [np.zeros(4096, dtype=np.float32)] *)
Definition zeros_4096 : ndarray := replicate 4096 0.

(** The body of the inner loop: the embedding of one text, or the zero
    vector and a printed line when the request fails. *)
Definition embed_or_zeros (text : string) : M ndarray :=
  try_except (get_embedding text)
    (λ e, _ <- print "Error embedding text: " e ;; ret zeros_4096).

(** The outer loop over the batch starts; [embeddings] is the list built
    so far.  The pause between batches changes nothing that is modelled. *)
Fixpoint batches (starts : list Z) (texts : list string) (batch_size : Z)
    (embeddings : list ndarray) : M (list ndarray) :=
  match starts with
  | [] => ret embeddings
  | i :: rest =>
      new <- mapM embed_or_zeros (slice texts i (i + batch_size)) ;;
      batches rest texts batch_size (embeddings ++ new)
  end.

Definition get_embeddings_batch (texts : list string) (batch_size : Z)
  : world → (py_error + list ndarray) * world :=
  λ w,
    match range0 (Z.of_nat (length texts)) batch_size with
    | None => (inl RangeStepZero, w)
    | Some starts =>
        match batches starts texts batch_size [] w with
        | (Ok embeddings, w') => (inr embeddings, w')
        | (Raise e, w') => (inl (Raised e), w')
        end
    end.

(** The replies the service gives to [n] successive requests from request
    number [k] on, with the zero vector in place of a failure. *)
Fixpoint replies (w : world) (k : nat) (texts : list string) : list ndarray :=
  match texts with
  | [] => []
  | text :: rest =>
      match ollama w k text with
      | inr embedding => embedding
      | inl _ => zeros_4096
      end :: replies w (S k) rest
  end.

(** The lines printed for the failures among those requests. *)
Fixpoint failures (w : world) (k : nat) (texts : list string) : list printed :=
  match texts with
  | [] => []
  | text :: rest =>
      match ollama w k text with
      | inr _ => []
      | inl cause => [Print "Error embedding text: " (EmbeddingError cause)]
      end ++ failures w (S k) rest
  end.

End Batch.

(** The statistics of [Retriever.get_document_statistics]. *)
Module Statistics.
Import Codec Retriever.

Local Open Scope py_scope.

(** The returned dictionary; [error] is absent on success. *)
Record statistics := {
  error : option exn;
  total_documents : nat;
  total_chunks : nat;
  documents_listed : list (Z * string * string) }.

Section statistics.
Context `{SqlOrder}.

(** [self.db_manager.get_documents()] *)
Definition get_documents : M (list (Z * string * string)) :=
  λ w,
    (match sqlite_fault w (db_calls w) with
     | Some msg => Raise (SqliteError msg)
     | None => Ok (DbQueries.get_documents (db w))
     end, tick_db w).

Definition get_document_statistics : world → statistics * world :=
  λ w,
    match (documents <- get_documents ;;
           chunks <- get_all_chunks ;;
           ret (documents, chunks)) w with
    | (Ok (documents, chunks), w') =>
        ({| error := None;
            total_documents := length documents;
            total_chunks := length chunks;
            documents_listed := documents |}, w')
    | (Raise e, w') =>
        ({| error := Some e; total_documents := 0; total_chunks := 0;
            documents_listed := [] |}, w')
    end.

End statistics.
End Statistics.

(** The in-memory history of [ChatManager]. *)
Module History.

(** One turn: user input, assistant output and the time it was added. *)
Definition turn (T : Type) : Type := string * string * T.

(** [l[k:]]: a negative bound counts from the end. *)
Definition slice_from {A} (l : list A) (k : Z) : list A :=
  if decide (k < 0) then drop (length l - Z.to_nat (- k)) l
  else drop (Z.to_nat k) l.

Definition add_to_history {T} (history : list (turn T))
    (user_input bot_output : string) (now : T) : list (turn T) :=
  history ++ [(user_input, bot_output, now)].

Definition get_conversation_history {T} (history : list (turn T)) (limit : Z)
  : list (turn T) :=
  match history with
  | [] => []
  | _ => slice_from history (- limit)
  end.

Definition clear_history {T} (history : list (turn T)) : list (turn T) := [].

End History.

(** One round of the upload loop of [app.py], from the chunks that
    [process_file] returned. *)
Module Upload.
Import Codec Retriever Batch.

Definition set_db (s : Db.t) (w : world) : world :=
  {| db := s; ollama := ollama w; sqlite_fault := sqlite_fault w;
     embed_calls := embed_calls w; db_calls := db_calls w;
     stdout := stdout w |}.

(** [for chunk, embedding in zip(chunks, embeddings): add_chunk(...)] *)
Definition store_chunks (doc_id : Z) (pairs : list (string * ndarray)) (s : Db.t) : Db.t :=
  foldl (λ s p, Db.add_chunk s doc_id p.1 p.2) s pairs.

(** The round for one file: nothing is stored for a file without chunks;
    otherwise the document row is added, the chunks are embedded (in
    batches of 10) and each is stored with its embedding.  Returns the
    document id, if one was made. *)
Definition upload (file_name now : string) (chunks : list string)
  : world → (py_error + option Z) * world :=
  λ w,
    match chunks with
    | [] => (inr None, w)
    | _ =>
        let '(s1, doc_id) := Db.add_document (db w) file_name now in
        match get_embeddings_batch chunks 10 (set_db s1 w) with
        | (inr embeddings, w') =>
            (inr (Some doc_id),
             set_db (store_chunks doc_id (zip chunks embeddings) (db w')) w')
        | (inl e, w') => (inl e, w')
        end
    end.

End Upload.

(** Further sample inputs. *)
Module MoreSamples.
Import Codec Retriever Exact Samples.

(** Rows in the reverse of insertion order: newest first. *)
#[export] Instance newest_first : SqlOrder := {|
  order_documents := reverse;
  order_chats := reverse
|}.

(** Two chat turns. *)
Definition two_chats : Db.t :=
  Db.add_chat (Db.add_chat Db.init "hi" "hello" "2024-01-01 00:00:00")
    "bye" "goodbye" "2024-01-01 00:00:05".

(** The service answers its first request and refuses the later ones. *)
Definition up_once (v : ndarray) : nat → string → string + ndarray :=
  λ n _, match n with
         | O => inr v
         | S _ => inl "connection refused"
         end.

(** A chunk row whose blob has five bytes. *)
Definition torn_blob : Db.t :=
  {| Db.documents := Db.documents one_document;
     Db.chunks := [{| Db.c_chunk_id := 1; Db.c_doc_id := 1; Db.c_text := "torn";
                      Db.c_embedding := ["000"; "000"; "128"; "063"; "000"]%byte |}];
     Db.chats := [];
     Db.sqlite_sequence := <["chunks" := 1]> (Db.sqlite_sequence one_document) |}.

End MoreSamples.

(** * Properties *)

(** ** The result monad *)

Lemma rmap_list_app {A B} (f : A → result B) (l1 l2 : list A) :
  rmap_list f (l1 ++ l2) =
  rbind (rmap_list f l1) (λ ys1,
    rbind (rmap_list f l2) (λ ys2, Ok (ys1 ++ ys2))).
Proof.
  induction l1 as [|x l1 IH]; simpl.
  - destruct (rmap_list f l2); reflexivity.
  - destruct (f x) as [y|e]; simpl; [|reflexivity].
    rewrite IH. destruct (rmap_list f l1) as [ys1|e]; simpl; [|reflexivity].
    destruct (rmap_list f l2); reflexivity.
Qed.

(** ** The binary encoding *)

Module CodecFacts.
Import Codec.

Lemma Z_of_byte_of_Z (z : Z) : Z_of_byte (byte_of_Z z) = Z.land z (Z.ones 8).
Proof.
  unfold Z_of_byte, byte_of_Z. change 255 with (Z.ones 8).
  assert (Hr : 0 ≤ Z.land z (Z.ones 8) < 256).
  { rewrite Z.land_ones by lia. apply Z.mod_pos_bound. lia. }
  destruct (Byte.of_N (Z.to_N (Z.land z (Z.ones 8)))) as [b|] eqn:Hb.
  - apply Byte.to_of_N in Hb. rewrite Hb. lia.
  - apply Byte.of_N_None_iff in Hb. lia.
Qed.

Lemma byte_bit (z n : Z) :
  0 ≤ n → Z.testbit (Z.land z (Z.ones 8)) n = Z.testbit z n && (n <? 8).
Proof.
  intros Hn. rewrite Z.land_spec, Z.testbit_ones_nonneg by lia.
  destruct (Z.ltb_spec n 8); [|rewrite !andb_false_r; reflexivity].
  replace (0 <=? n) with true by (symmetry; apply Z.leb_le; lia). reflexivity.
Qed.

Lemma shifted_byte_bit (z k n : Z) :
  0 ≤ k → 0 ≤ n →
  Z.testbit (Z.shiftl (Z.land (Z.shiftr z k) (Z.ones 8)) k) n =
  Z.testbit z n && (k <=? n) && (n <? k + 8).
Proof.
  intros Hk Hn. rewrite Z.shiftl_spec by lia.
  destruct (Z.leb_spec k n).
  - rewrite byte_bit, Z.shiftr_spec by lia.
    replace (n - k + k) with n by lia.
    rewrite andb_true_r. f_equal.
    destruct (Z.ltb_spec (n - k) 8), (Z.ltb_spec n (k + 8)); auto; lia.
  - rewrite Z.testbit_neg_r by lia. rewrite andb_false_r. reflexivity.
Qed.

Lemma f32_of_bytes_f32_bytes (w : Z) :
  is_f32 w →
  match f32_bytes w with
  | [b0; b1; b2; b3] => f32_of_bytes b0 b1 b2 b3 = w
  | _ => False
  end.
Proof.
  intros [Hlo Hhi]. unfold f32_bytes, f32_of_bytes.
  rewrite !Z_of_byte_of_Z. apply Z.bits_inj'. intros n Hn.
  rewrite !Z.lor_spec, !shifted_byte_bit, byte_bit by lia.
  destruct (Z.ltb_spec n 32) as [Hn32|Hn32].
  - destruct (Z.testbit w n); simpl; [|reflexivity].
    destruct (Z.ltb_spec n 8), (Z.leb_spec 8 n), (Z.ltb_spec n (8 + 8)),
      (Z.leb_spec 16 n), (Z.ltb_spec n (16 + 8)), (Z.leb_spec 24 n),
      (Z.ltb_spec n (24 + 8)); simpl; auto; lia.
  - assert (Z.testbit w n = false) as ->; [|reflexivity].
    destruct (Z.eq_dec w 0) as [->|Hw]; [apply Z.bits_0|].
    apply Z.bits_above_log2; [lia|].
    apply Z.log2_lt_pow2; [lia|].
    eapply Z.lt_le_trans; [exact Hhi|]. apply Z.pow_le_mono_r; lia.
Qed.

Lemma words_of_bytes_tobytes (v : ndarray) :
  Forall is_f32 v → words_of_bytes (tobytes v) = Some v.
Proof.
  induction 1 as [|w v Hw _ IH]; [reflexivity|].
  unfold tobytes in *. simpl flat_map.
  pose proof (f32_of_bytes_f32_bytes w Hw) as Hb.
  unfold f32_bytes in *. simpl app. simpl words_of_bytes.
  rewrite IH, Hb. reflexivity.
Qed.

Lemma frombuffer_tobytes (v : ndarray) :
  Forall is_f32 v → frombuffer (tobytes v) = Ok v.
Proof.
  intros Hv. unfold frombuffer. rewrite words_of_bytes_tobytes by assumption.
  reflexivity.
Qed.

End CodecFacts.

(** ** The store *)

Module DbFacts.
Import Codec Db.

Lemma filter_all {A} (P : A → Prop) `{∀ x, Decision (P x)} (l : list A) :
  (∀ x, x ∈ l → P x) → filter P l = l.
Proof.
  induction l as [|x l IH]; intros Hall; [reflexivity|].
  rewrite filter_cons_True by (apply Hall; left).
  f_equal. apply IH. intros y Hy. apply Hall. right. exact Hy.
Qed.

Lemma filter_none {A} (P : A → Prop) `{∀ x, Decision (P x)} (l : list A) :
  (∀ x, x ∈ l → ¬ P x) → filter P l = [].
Proof.
  induction l as [|x l IH]; intros Hall; [reflexivity|].
  rewrite filter_cons_False by (apply Hall; left).
  apply IH. intros y Hy. apply Hall. right. exact Hy.
Qed.

Lemma rmap_list_Ok_elem {A B} (f : A → result B) (l : list A) (ys : list B) (y : B) :
  rmap_list f l = Ok ys → y ∈ ys → ∃ x, x ∈ l ∧ f x = Ok y.
Proof.
  revert ys. induction l as [|x l IH]; intros ys; simpl.
  - intros [= <-] Hy. inversion Hy.
  - destruct (f x) as [y0|e] eqn:Hfx; simpl; [|discriminate].
    destruct (rmap_list f l) as [ys'|e]; simpl; [|discriminate].
    intros [= <-] Hy. apply elem_of_cons in Hy as [->|Hy].
    + exists x. split; [left|exact Hfx].
    + destruct (IH ys' eq_refl Hy) as (x' & Hx' & Hfx').
      exists x'. split; [right; exact Hx'|exact Hfx'].
Qed.

Lemma decode_row_tobytes (id doc_id : Z) (text : string) (v : ndarray) :
  Forall is_f32 v →
  decode_row {| c_chunk_id := id; c_doc_id := doc_id; c_text := text;
                c_embedding := tobytes v |} = Ok (id, text, v).
Proof.
  intros Hv. unfold decode_row. simpl.
  rewrite CodecFacts.frombuffer_tobytes by assumption. reflexivity.
Qed.

Lemma foldr_max_bound (ids : list Z) (id : Z) :
  id ∈ ids → id ≤ foldr Z.max 0 ids.
Proof.
  induction ids as [|a ids IH]; intros Hin; [inversion Hin|].
  simpl. apply elem_of_cons in Hin as [-> | Hin]; [lia|].
  specialize (IH Hin). lia.
Qed.

(** The primary key: rowids handed out by AUTOINCREMENT are fresh, so
    chunk ids stay distinct under every operation of the store. *)
Lemma chunk_ids_unique_init : NoDup (c_chunk_id <$> chunks init).
Proof. constructor. Qed.

Lemma chunk_ids_unique_add_chunk (s : Db.t) (doc_id : Z) (text : string) (v : ndarray) :
  NoDup (c_chunk_id <$> chunks s) →
  NoDup (c_chunk_id <$> chunks (add_chunk s doc_id text v)).
Proof.
  intros Hnd. unfold add_chunk. simpl. rewrite fmap_app. simpl.
  apply NoDup_app. split; [exact Hnd|]. split; [|apply NoDup_singleton].
  intros id Hid Hnew. apply list_elem_of_singleton in Hnew.
  apply foldr_max_bound in Hid. unfold next_rowid in Hnew. lia.
Qed.

Lemma chunk_ids_unique_delete_document (s : Db.t) (d : Z) :
  NoDup (c_chunk_id <$> chunks s) →
  NoDup (c_chunk_id <$> chunks (delete_document s d)).
Proof.
  unfold delete_document. simpl. generalize (chunks s). intros l.
  induction l as [|r l IH]; intros Hnd; [constructor|].
  rewrite fmap_cons in Hnd. apply NoDup_cons in Hnd as [Hr Hnd].
  rewrite filter_cons. destruct (decide (c_doc_id r ≠ d)); [|auto].
  rewrite fmap_cons. apply NoDup_cons. split; [|auto].
  intros Hin. apply Hr. apply list_elem_of_fmap in Hin as (r' & Heq & Hr').
  apply list_elem_of_filter in Hr' as [_ Hr']. rewrite Heq.
  apply list_elem_of_fmap_2. exact Hr'.
Qed.

Lemma unique_key {A} (f : A → Z) (l : list A) (x y : A) :
  NoDup (f <$> l) → x ∈ l → y ∈ l → f x = f y → x = y.
Proof.
  induction l as [|a l IH]; intros Hnd Hx Hy Heq; [inversion Hx|].
  rewrite fmap_cons in Hnd. apply NoDup_cons in Hnd as [Ha Hnd].
  apply elem_of_cons in Hx as [-> | Hx]; apply elem_of_cons in Hy as [-> | Hy].
  - reflexivity.
  - exfalso. apply Ha. rewrite Heq. apply list_elem_of_fmap_2. exact Hy.
  - exfalso. apply Ha. rewrite <- Heq. apply list_elem_of_fmap_2. exact Hx.
  - apply IH; assumption.
Qed.

(** A list of rows that all decode is read in full. *)
Lemma rmap_list_Ok_all {A B} (f : A → result B) (l : list A) :
  (∀ x, x ∈ l → ∃ y, f x = Ok y) → ∃ ys, rmap_list f l = Ok ys.
Proof.
  induction l as [|x l IH]; intros Hall; simpl; [eauto|].
  destruct (Hall x) as [y Hy]; [left|]. rewrite Hy. simpl.
  destruct IH as [ys Hys]; [intros x' Hx'; apply Hall; right; exact Hx'|].
  rewrite Hys. simpl. eauto.
Qed.

Lemma well_encoded_decodes (s : Db.t) (l : list chunk_row) :
  DbOps.well_encoded s → (∀ r, r ∈ l → r ∈ chunks s) →
  ∃ ys, rmap_list decode_row l = Ok ys.
Proof.
  intros Hs Hsub. apply rmap_list_Ok_all. intros r Hr.
  destruct (Hs r (Hsub r Hr)) as (v & Hv & Hblob).
  exists (c_chunk_id r, c_text r, v). unfold decode_row.
  rewrite Hblob, CodecFacts.frombuffer_tobytes by exact Hv. reflexivity.
Qed.

Lemma well_encoded_add_chunk (s : Db.t) (doc_id : Z) (text : string) (v : ndarray) :
  Forall is_f32 v → DbOps.well_encoded s →
  DbOps.well_encoded (add_chunk s doc_id text v).
Proof.
  intros Hv Hs r Hr. unfold add_chunk in Hr. simpl in Hr.
  apply elem_of_app in Hr as [Hr|Hr]; [apply Hs; exact Hr|].
  apply list_elem_of_singleton in Hr as ->. exists v. split; [exact Hv|reflexivity].
Qed.

Lemma well_encoded_exec (s : Db.t) (o : DbOps.op) :
  DbOps.f32_op o → DbOps.well_encoded s → DbOps.well_encoded (DbOps.exec s o).
Proof.
  intros Ho Hs. destruct o as [f n|d t e|u b n|d]; simpl in *.
  - exact Hs.
  - apply well_encoded_add_chunk; assumption.
  - exact Hs.
  - intros r Hr. apply Hs. unfold delete_document in Hr. simpl in Hr.
    apply list_elem_of_filter in Hr as [_ Hr]. exact Hr.
Qed.

(** Every store built from a fresh database by calls that store float32
    arrays is well encoded. *)
Lemma well_encoded_run (ops : list DbOps.op) (s : Db.t) :
  Forall DbOps.f32_op ops → DbOps.well_encoded s →
  DbOps.well_encoded (DbOps.run s ops).
Proof.
  intros Hops. revert s. induction Hops as [|o ops Ho _ IH]; intros s Hs; [exact Hs|].
  apply IH, well_encoded_exec; assumption.
Qed.

Lemma well_encoded_init : DbOps.well_encoded init.
Proof. intros r Hr. inversion Hr. Qed.

(** C7. A float32 vector stored by [add_chunk] is read back exactly: the
    decoding of its bytes is the vector itself, and both [get_all_chunks]
    and [get_document_chunks] return what they returned before followed
    by the new chunk with that very vector.  In a store whose blobs were
    all written by [add_chunk] from float32 vectors, as in every store
    built from a fresh database by the operations of the store, both
    reads succeed before and after, so the new chunk is returned, last,
    with its vector. *)
Theorem embedding_round_trip (s : Db.t) (doc_id : Z) (text : string) (v : ndarray) :
  Forall is_f32 v →
  let s' := add_chunk s doc_id text v in
  let id := next_rowid "chunks" (c_chunk_id <$> chunks s) s in
  frombuffer (tobytes v) = Ok v ∧
  get_all_chunks s' =
    rbind (get_all_chunks s) (λ old, Ok (old ++ [(id, text, v)])) ∧
  get_document_chunks s' doc_id =
    rbind (get_document_chunks s doc_id) (λ old, Ok (old ++ [(id, text, v)])) ∧
  (DbOps.well_encoded s →
   (∃ old, get_all_chunks s = Ok old ∧
           get_all_chunks s' = Ok (old ++ [(id, text, v)])) ∧
   (∃ old, get_document_chunks s doc_id = Ok old ∧
           get_document_chunks s' doc_id = Ok (old ++ [(id, text, v)])) ∧
   DbOps.well_encoded s') ∧
  (∀ ops, Forall DbOps.f32_op ops → s = DbOps.run init ops → DbOps.well_encoded s).
Proof.
  intros Hv s' id.
  assert (Hall : get_all_chunks s' =
                 rbind (get_all_chunks s) (λ old, Ok (old ++ [(id, text, v)]))).
  { unfold get_all_chunks, s', add_chunk. simpl chunks.
    rewrite rmap_list_app. simpl rmap_list.
    fold id. rewrite decode_row_tobytes by exact Hv. simpl.
    destruct (rmap_list decode_row (chunks s)); reflexivity. }
  assert (Hdoc : get_document_chunks s' doc_id =
                 rbind (get_document_chunks s doc_id)
                       (λ old, Ok (old ++ [(id, text, v)]))).
  { unfold get_document_chunks, s', add_chunk. simpl chunks.
    rewrite filter_app, filter_cons_True, filter_nil by reflexivity.
    rewrite rmap_list_app. simpl rmap_list.
    fold id. rewrite decode_row_tobytes by exact Hv. simpl.
    destruct (rmap_list decode_row _); reflexivity. }
  split; [apply CodecFacts.frombuffer_tobytes; exact Hv|].
  split; [exact Hall|]. split; [exact Hdoc|]. split.
  - intros Hs. split; [|split].
    + destruct (well_encoded_decodes s (chunks s) Hs) as [old Hold]; [auto|].
      exists old. split; [exact Hold|].
      rewrite Hall. unfold get_all_chunks. rewrite Hold. reflexivity.
    + destruct (well_encoded_decodes s
                  (filter (λ r, c_doc_id r = doc_id) (chunks s)) Hs) as [old Hold].
      { intros r Hr. apply list_elem_of_filter in Hr as [_ Hr]. exact Hr. }
      exists old. split; [exact Hold|].
      rewrite Hdoc. unfold get_document_chunks. rewrite Hold. reflexivity.
    + apply well_encoded_add_chunk; assumption.
  - intros ops Hops ->. apply well_encoded_run; [exact Hops|apply well_encoded_init].
Qed.

(** The round trip on the vector [[1.0, -1.0, 0.0]], added to a document
    that already has a chunk. *)
Lemma embedding_round_trip_witness :
  get_document_chunks
    (add_chunk Samples.one_chunk 1 "hello" [1065353216; 3212836864; 0]) 1 =
  Ok [(1, "first", [Samples.one; Samples.zero]);
      (2, "hello", [1065353216; 3212836864; 0])].
Proof.
  assert (Hv : Forall is_f32 [1065353216; 3212836864; 0])
    by (repeat constructor; unfold is_f32; lia).
  assert (Hs : DbOps.well_encoded Samples.one_chunk).
  { apply (well_encoded_run
             [DbOps.AddDocument "notes.txt" "2024-01-01 00:00:00";
              DbOps.AddChunk 1 "first" [Samples.one; Samples.zero]] init);
      [|apply well_encoded_init].
    repeat constructor; unfold is_f32, Samples.one, Samples.zero; lia. }
  destruct (proj1 (proj2 (proj2 (proj2
              (embedding_round_trip Samples.one_chunk 1 "hello"
                 [1065353216; 3212836864; 0] Hv)))) Hs)
    as (_ & (old & Hold & Hnew) & _).
  rewrite Hnew. f_equal.
  assert (Hread : get_document_chunks Samples.one_chunk 1 =
                  Ok [(1, "first", [Samples.one; Samples.zero])])
    by (vm_compute; reflexivity).
  rewrite Hread in Hold. injection Hold as <-. vm_compute. reflexivity.
Defined.

(** C6. After [delete_document(d)] no chunk row carries document id [d]:
    [get_document_chunks(d)] returns the empty list, every chunk that
    [get_all_chunks()] returns is decoded from a row of another document
    (so, chunk ids being distinct, no id of a chunk of [d] is returned),
    and the chunk rows are removed by the first statement, while the
    document row is still in place. *)
Theorem delete_document_removes_chunks (s : Db.t) (d : Z) :
  let s' := delete_document s d in
  get_document_chunks s' d = Ok [] ∧
  (∀ r, r ∈ chunks s' → c_doc_id r ≠ d) ∧
  (∀ l x, get_all_chunks s' = Ok l → x ∈ l →
     ∃ r, r ∈ chunks s ∧ c_doc_id r ≠ d ∧ decode_row r = Ok x) ∧
  (NoDup (c_chunk_id <$> chunks s) →
   ∀ l r, get_all_chunks s' = Ok l → r ∈ chunks s → c_doc_id r = d →
     c_chunk_id r ∉ (λ x, x.1.1) <$> l) ∧
  s' = delete_document_row d (delete_chunks_of d s) ∧
  (∀ r, r ∈ chunks (delete_chunks_of d s) → c_doc_id r ≠ d) ∧
  documents (delete_chunks_of d s) = documents s.
Proof.
  intros s'.
  assert (Hgone : ∀ r, r ∈ chunks s' → c_doc_id r ≠ d).
  { intros r Hr. unfold s', delete_document in Hr. simpl in Hr.
    apply list_elem_of_filter in Hr. tauto. }
  assert (Hfrom : ∀ l x, get_all_chunks s' = Ok l → x ∈ l →
            ∃ r, r ∈ chunks s ∧ c_doc_id r ≠ d ∧ decode_row r = Ok x).
  { intros l x Hl Hx. unfold get_all_chunks in Hl.
    destruct (rmap_list_Ok_elem _ _ _ _ Hl Hx) as (r & Hr & Hdec).
    exists r. unfold s', delete_document in Hr. simpl in Hr.
    apply list_elem_of_filter in Hr. tauto. }
  repeat split.
  - unfold get_document_chunks. rewrite filter_none; [reflexivity|].
    intros r Hr Heq. exact (Hgone r Hr Heq).
  - exact Hgone.
  - exact Hfrom.
  - intros Hnd l r Hl Hr Hd Hin.
    apply list_elem_of_fmap in Hin as (x & Hid & Hx).
    destruct (Hfrom l x Hl Hx) as (r' & Hr' & Hd' & Hdec).
    assert (Hsame : c_chunk_id r' = c_chunk_id r).
    { unfold decode_row in Hdec. destruct (frombuffer (c_embedding r'));
        simpl in Hdec; [|discriminate].
      injection Hdec as <-. simpl in Hid. congruence. }
    apply Hd'. rewrite (unique_key c_chunk_id _ _ _ Hnd Hr' Hr Hsame). exact Hd.
  - exact Hgone.
Qed.

(** Deleting the only document of a store with two chunks. *)
Lemma delete_document_removes_chunks_witness :
  get_document_chunks (delete_document Samples.two_chunks 1) 1 = Ok [].
Proof. exact (proj1 (delete_document_removes_chunks Samples.two_chunks 1)). Defined.

(** C10 as stated fails: a chunk added under a document id that has no
    document row is deleted by [delete_document] of that id, although the
    id matches no stored document. *)
Lemma delete_document_orphan_counterexample :
  let s := add_chunk init 99 "orphan" [1065353216] in
  (∀ r, r ∈ documents s → d_doc_id r ≠ 99) ∧
  delete_document s 99 ≠ s.
Proof.
  split.
  - intros r Hr. simpl in Hr. inversion Hr.
  - intros Heq. apply (f_equal (λ x, length (chunks x))) in Heq.
    vm_compute in Heq. discriminate.
Qed.

(** C10, amended. [delete_document(d)] keeps exactly the chunk rows and
    the document rows of the other documents, in their order, and leaves
    the chat log and the rowid counters alone; when [d] is the id of no
    document row and of no chunk row it changes nothing. *)
Theorem delete_document_frame (s : Db.t) (d : Z) :
  let s' := delete_document s d in
  chunks s' = filter (λ r, c_doc_id r ≠ d) (chunks s) ∧
  documents s' = filter (λ r, d_doc_id r ≠ d) (documents s) ∧
  (∀ r, c_doc_id r ≠ d → (r ∈ chunks s' ↔ r ∈ chunks s)) ∧
  (∀ r, d_doc_id r ≠ d → (r ∈ documents s' ↔ r ∈ documents s)) ∧
  chats s' = chats s ∧
  sqlite_sequence s' = sqlite_sequence s ∧
  ((∀ r, r ∈ documents s → d_doc_id r ≠ d) →
   (∀ r, r ∈ chunks s → c_doc_id r ≠ d) →
   s' = s).
Proof.
  intros s'. unfold s', delete_document, delete_document_row, delete_chunks_of.
  simpl. repeat split; try (rewrite list_elem_of_filter; tauto).
  intros Hdocs Hchunks.
  rewrite (filter_all _ _ Hdocs), (filter_all _ _ Hchunks).
  destruct s; reflexivity.
Qed.

(** Deleting document 5 from a store that holds document 1 only. *)
Lemma delete_document_frame_witness :
  let s := add_chunk (add_document init "a.txt" "2024-01-01 00:00:00").1 1 "text" [0] in
  delete_document s 5 = s.
Proof.
  intros s.
  refine (proj2 (proj2 (proj2 (proj2 (proj2 (proj2
            (delete_document_frame s 5)))))) _ _).
  - intros r Hr. vm_compute in Hr. apply list_elem_of_singleton in Hr. subst r.
    vm_compute. discriminate.
  - intros r Hr. vm_compute in Hr. apply list_elem_of_singleton in Hr. subst r.
    vm_compute. discriminate.
Defined.

End DbFacts.

(** ** Exact arithmetic satisfies the laws *)

Module ExactLaws.
Import Exact.


#[export] Instance zero_laws : ZeroLaws Qc.
Proof.
  split; simpl.
  - apply Qc_is_canon. reflexivity.
  - apply Qcmult_0_l.
  - apply Qcplus_0_l.
  - apply Qc_is_canon. reflexivity.
  - reflexivity.
Qed.

#[export] Instance weight_laws : WeightLaws Qc.
Proof.
  split; simpl.
  - apply Qcmult_1_l.
  - apply Qcmult_0_l.
  - apply Qcplus_0_r.
Qed.

#[export] Instance set_laws : SetLaws Qc.
Proof. split; simpl. reflexivity. Qed.

End ExactLaws.

(** ** The scoring functions *)

Module ScoringFacts.
Import Codec Scoring.

Section scoring_facts.
Context {F : Type} `{Runtime F}.

Lemma length_values (v : ndarray) : length (values (F := F) v) = length v.
Proof. unfold values. apply length_fmap. Qed.

Lemma cosine_similarity_mismatch (a b : ndarray) :
  length a ≠ length b →
  cosine_similarity (F := F) a b = Raise (ShapesNotAligned (length a) (length b)).
Proof.
  intros Hne. unfold cosine_similarity, dot. rewrite !length_values.
  destruct (decide (length a = length b)); [contradiction|reflexivity].
Qed.

Lemma cosine_similarity_aligned (a b : ndarray) :
  length a = length b →
  cosine_similarity (F := F) a b =
  Ok (if feq (norm (values a)) fzero || feq (norm (values b)) fzero then fzero
      else fdiv (dot_sum (values a) (values b))
                (fmul (norm (values a)) (norm (values b)))).
Proof.
  intros Heq. unfold cosine_similarity, dot. rewrite !length_values.
  destruct (decide (length a = length b)); [|contradiction]. simpl.
  destruct (feq (norm (values a)) fzero || feq (norm (values b)) fzero); reflexivity.
Qed.

Lemma l2_distance_aligned (a b : ndarray) :
  length a = length b →
  l2_distance (F := F) a b = Ok (norm (zip_with fsub (values a) (values b))).
Proof.
  intros Heq. unfold l2_distance, broadcast_sub. rewrite !length_values.
  destruct (decide (length a = length b)); [reflexivity|contradiction].
Qed.

Lemma l2_distance_mismatch (a b : ndarray) :
  length a ≠ length b → length a ≠ 1%nat → length b ≠ 1%nat →
  l2_distance (F := F) a b = Raise (CannotBroadcast (length a) (length b)).
Proof.
  intros Hne Ha Hb. unfold l2_distance, broadcast_sub. rewrite !length_values.
  destruct (decide (length a = length b)); [contradiction|].
  destruct a as [|x [|x' a]], b as [|y [|y' b]]; simpl in *; try reflexivity;
    congruence.
Qed.

Context `{!ZeroLaws F}.

Lemma dot_sum_zeros (n : nat) :
  dot_sum (F := F) (replicate n fzero) (replicate n fzero) = fzero.
Proof.
  unfold dot_sum. induction n as [|n IH]; [reflexivity|].
  simpl. rewrite fmul_0_0, fadd_0_0. exact IH.
Qed.

Lemma norm_zeros (n : nat) : norm (values (F := F) (replicate n 0)) = fzero.
Proof.
  unfold norm, values. rewrite fmap_replicate, f32_value_0, dot_sum_zeros.
  apply fsqrt_0.
Qed.

(** C9. On vectors of one length [cosine_similarity] is the quotient of
    the dot product by the product of the norms, taken only when neither
    norm equals zero; when either norm equals zero it returns 0.0, and so
    it does against the zero vector. *)
Theorem cosine_similarity_guarded (a b : ndarray) :
  length a = length b →
  let norm1 := norm (F := F) (values a) in
  let norm2 := norm (F := F) (values b) in
  (feq norm1 fzero = false → feq norm2 fzero = false →
     cosine_similarity a b =
     Ok (fdiv (dot_sum (values a) (values b)) (fmul norm1 norm2))) ∧
  (feq norm1 fzero = true ∨ feq norm2 fzero = true →
     cosine_similarity (F := F) a b = Ok fzero) ∧
  cosine_similarity (F := F) a (replicate (length a) 0) = Ok fzero ∧
  cosine_similarity (F := F) (replicate (length b) 0) b = Ok fzero.
Proof.
  intros Hlen norm1 norm2. repeat split.
  - intros H1 H2. rewrite cosine_similarity_aligned by exact Hlen.
    fold norm1 norm2. rewrite H1, H2. reflexivity.
  - intros Hz. rewrite cosine_similarity_aligned by exact Hlen.
    fold norm1 norm2. destruct Hz as [-> | ->]; [reflexivity|].
    rewrite orb_true_r. reflexivity.
  - rewrite cosine_similarity_aligned by (rewrite length_replicate; reflexivity).
    rewrite norm_zeros, feq_0_0, orb_true_r. reflexivity.
  - rewrite cosine_similarity_aligned by (rewrite length_replicate; reflexivity).
    rewrite norm_zeros, feq_0_0. reflexivity.
Qed.

End scoring_facts.

Import Exact ExactLaws.

(** The cosine of [[1.0, 0.0]] and the zero vector, in exact arithmetic. *)
Lemma cosine_similarity_guarded_witness :
  cosine_similarity (F := Qc) [Samples.one; Samples.zero] [0; 0] = Ok 0%Qc.
Proof.
  refine (proj1 (proj2 (proj2
    (cosine_similarity_guarded (F := Qc) [Samples.one; Samples.zero]
       [Samples.half; Samples.zero] _)))).
  reflexivity.
Defined.

End ScoringFacts.

(** ** Order within a list, and the reference stable sort *)

Module RankingFacts.
Import Ranking.

Section before_facts.
Context {A : Type}.
Implicit Types (x y a : A) (l : list A).









End before_facts.

(** The stable sort under a strict weak order [lt]. *)
Section stable_sort_facts.
Context {A : Type} (lt : A → A → bool).
Hypothesis lt_asym : ∀ x y, lt x y = true → lt y x = false.
Hypothesis lt_negtrans : ∀ x y z, lt x y = false → lt y z = false → lt x z = false.








End stable_sort_facts.

End RankingFacts.

(** ** The retrievals *)

Module RetrieverFacts.
Import Codec Scoring Retriever Ranking RankingFacts.

Lemma slice_to_nil {A} (k : Z) : Py.slice_to (@nil A) k = [].
Proof. unfold Py.slice_to. destruct (decide (0 ≤ k)); apply take_nil. Qed.

Lemma slice_to_nonneg {A} (l : list A) (k : Z) :
  0 ≤ k → Py.slice_to l k = take (Z.to_nat k) l.
Proof. intros Hk. unfold Py.slice_to. destruct (decide (0 ≤ k)); [reflexivity|lia]. Qed.


Lemma fetch_run (query : string) (w : world) :
  fetch query w =
  match ollama w (embed_calls w) query with
  | inl cause => (Raise (EmbeddingError cause), tick_embed w)
  | inr qe =>
      (match sqlite_fault w (db_calls w) with
       | Some msg => Raise (SqliteError msg)
       | None => rbind (Db.get_all_chunks (db w)) (λ cs, Ok (qe, cs))
       end, tick_db (tick_embed w))
  end.
Proof.
  unfold fetch, bind, get_embedding, get_all_chunks, ret. simpl.
  destruct (ollama w (embed_calls w) query) as [cause|qe]; [reflexivity|].
  destruct (sqlite_fault w (db_calls w)) as [msg|]; [reflexivity|].
  destruct (Db.get_all_chunks (db w)); reflexivity.
Qed.

Lemma fetch_emit (query : string) (p : printed) (w : world) :
  fetch query (emit p w) = ((fetch query w).1, emit p (fetch query w).2).
Proof.
  rewrite !fetch_run. simpl.
  destruct (ollama w (embed_calls w) query); reflexivity.
Qed.

(** What a retrieval leaves alone. *)
Lemma fetch_world (query : string) (w : world) :
  let w' := (fetch query w).2 in
  db w' = db w ∧ ollama w' = ollama w ∧ sqlite_fault w' = sqlite_fault w ∧
  stdout w' = stdout w ∧ embed_calls w' = S (embed_calls w).
Proof.
  rewrite fetch_run.
  destruct (ollama w (embed_calls w) query); simpl; auto.
Qed.

Lemma fetch_empty_store (query : string) (w : world) qe cs w' :
  Db.chunks (db w) = [] → fetch query w = (Ok (qe, cs), w') → cs = [].
Proof.
  intros Hempty. rewrite fetch_run.
  destruct (ollama w (embed_calls w) query); [discriminate|].
  destruct (sqlite_fault w (db_calls w)); [discriminate|].
  unfold Db.get_all_chunks. rewrite Hempty. simpl. congruence.
Qed.

Section retriever_facts.
Context {F : Type} `{Runtime F}.

Lemma retrieve_similar_chunks_run (query : string) (top_k : Z) (thr : F) (w : world) :
  retrieve_similar_chunks query top_k thr w =
  match fetch query w with
  | (Raise e, w') => (Ok [], emit (Print "Error in similarity search: " e) w')
  | (Ok (qe, cs), w') =>
      match score_chunks cosine_similarity qe cs with
      | Raise e => (Ok [], emit (Print "Error in similarity search: " e) w')
      | Ok sims =>
          (Ok (Py.slice_to
                 (filter (λ x, fle thr (score_of x) = true)
                    (Py.sort by_score true sims)) top_k), w')
      end
  end.
Proof.
  rewrite fetch_run.
  unfold retrieve_similar_chunks, try_except, bind, get_embedding, get_all_chunks,
    lift, ret, print. simpl.
  destruct (ollama w (embed_calls w) query) as [cause|qe]; [reflexivity|].
  destruct (sqlite_fault w (db_calls w)) as [msg|]; [reflexivity|].
  destruct (Db.get_all_chunks (db w)) as [[|c cs]|e]; simpl; try reflexivity.
  - rewrite filter_nil, slice_to_nil. reflexivity.
  - destruct (score_chunks cosine_similarity qe (c :: cs)); reflexivity.
Qed.

Lemma retrieve_by_l2_distance_run (query : string) (top_k : Z) (maxd : F) (w : world) :
  retrieve_by_l2_distance query top_k maxd w =
  match fetch query w with
  | (Raise e, w') => (Ok [], emit (Print "Error in L2 distance search: " e) w')
  | (Ok (qe, cs), w') =>
      match score_chunks l2_distance qe cs with
      | Raise e => (Ok [], emit (Print "Error in L2 distance search: " e) w')
      | Ok dists =>
          (Ok (Py.slice_to
                 (filter (λ x, fle (score_of x) maxd = true)
                    (Py.sort by_score false dists)) top_k), w')
      end
  end.
Proof.
  rewrite fetch_run.
  unfold retrieve_by_l2_distance, try_except, bind, get_embedding, get_all_chunks,
    lift, ret, print. simpl.
  destruct (ollama w (embed_calls w) query) as [cause|qe]; [reflexivity|].
  destruct (sqlite_fault w (db_calls w)) as [msg|]; [reflexivity|].
  destruct (Db.get_all_chunks (db w)) as [[|c cs]|e]; simpl; try reflexivity.
  - rewrite filter_nil, slice_to_nil. reflexivity.
  - destruct (score_chunks l2_distance qe (c :: cs)); reflexivity.
Qed.

(** Neither retrieval raises. *)
Lemma retrieve_similar_chunks_returns (query : string) (top_k : Z) (thr : F) (w : world) :
  ∃ r w', retrieve_similar_chunks query top_k thr w = (Ok r, w').
Proof.
  rewrite retrieve_similar_chunks_run.
  destruct (fetch query w) as [[[qe cs]|e] w']; [|eauto].
  destruct (score_chunks cosine_similarity qe cs); eauto.
Qed.

Lemma retrieve_by_l2_distance_returns (query : string) (top_k : Z) (maxd : F) (w : world) :
  ∃ r w', retrieve_by_l2_distance query top_k maxd w = (Ok r, w').
Proof.
  rewrite retrieve_by_l2_distance_run.
  destruct (fetch query w) as [[[qe cs]|e] w']; [|eauto].
  destruct (score_chunks l2_distance qe cs); eauto.
Qed.

Lemma retrieve_similar_chunks_db (query : string) (top_k : Z) (thr : F) (w : world) :
  db (retrieve_similar_chunks query top_k thr w).2 = db w.
Proof.
  rewrite retrieve_similar_chunks_run.
  pose proof (fetch_world query w) as (Hdb & _).
  destruct (fetch query w) as [[[qe cs]|e] w']; simpl in *; [|exact Hdb].
  destruct (score_chunks cosine_similarity qe cs); exact Hdb.
Qed.

Lemma hybrid_search_run (query : string) (top_k : Z) (cw lw : F) (w : world)
    r1 w1 r2 w2 :
  retrieve_similar_chunks query (top_k * 2) fzero w = (Ok r1, w1) →
  retrieve_by_l2_distance query (top_k * 2) finf w1 = (Ok r2, w2) →
  hybrid_search query top_k cw lw w = (Ok (merge_results r1 r2 top_k cw lw), w2).
Proof.
  intros H1 H2. unfold hybrid_search, try_except, bind, ret.
  rewrite H1, H2. reflexivity.
Qed.

(** [hybrid_search] does not raise. *)
Lemma hybrid_search_returns (query : string) (top_k : Z) (cw lw : F) (w : world) :
  ∃ r w', hybrid_search query top_k cw lw w = (Ok r, w').
Proof.
  destruct (retrieve_similar_chunks_returns query (top_k * 2) fzero w) as (r1 & w1 & H1).
  destruct (retrieve_by_l2_distance_returns query (top_k * 2) finf w1) as (r2 & w2 & H2).
  rewrite (hybrid_search_run _ _ _ _ _ _ _ _ _ H1 H2). eauto.
Qed.

Lemma sort_nil {A} (lt : A → A → bool) (b : bool) : Py.sort lt b [] = [].
Proof. destruct b; reflexivity. Qed.

Lemma score_chunks_nil (metric : ndarray → ndarray → result F) (qe : ndarray) :
  score_chunks metric qe [] = Ok [].
Proof. reflexivity. Qed.

(** The first chunk that cannot be scored decides the outcome. *)
Lemma score_chunks_raises (metric : ndarray → ndarray → result F) (qe : ndarray)
    (cs : list (Z * string * ndarray)) :
  (∃ c e, c ∈ cs ∧ metric qe c.2 = Raise e) →
  ∃ c e, c ∈ cs ∧ metric qe c.2 = Raise e ∧ score_chunks metric qe cs = Raise e.
Proof.
  induction cs as [|c cs IH]; intros (c0 & e0 & Hin & Hraise); [inversion Hin|].
  destruct (metric qe c.2) as [s|e] eqn:Hc.
  - assert (Hin' : c0 ∈ cs).
    { apply elem_of_cons in Hin as [-> | Hin]; [congruence|exact Hin]. }
    destruct IH as (c' & e' & Hc' & Hraise' & Hrun); [eauto|].
    exists c', e'. split; [right; exact Hc'|]. split; [exact Hraise'|].
    unfold score_chunks in *. simpl. destruct c as [[id text] emb]. simpl in Hc.
    rewrite Hc. simpl. rewrite Hrun. reflexivity.
  - exists c, e. split; [left|]. split; [exact Hc|].
    unfold score_chunks. simpl. destruct c as [[id text] emb]. simpl in Hc.
    rewrite Hc. reflexivity.
Qed.

Lemma merge_results_nil `{!SetLaws F} (top_k : Z) (cw lw : F) :
  merge_results [] [] top_k cw lw = [].
Proof.
  unfold merge_results. simpl.
  assert (Hset : set_order (dom (∅ : gmap Z F) ∪ dom (∅ : gmap Z F)) = []).
  { apply Permutation_nil. rewrite set_order_perm.
    rewrite dom_empty_L, union_empty_l_L, elements_empty. reflexivity. }
  unfold Py.dict_of. simpl. rewrite Hset. simpl.
  apply slice_to_nil.
Qed.

End retriever_facts.
End RetrieverFacts.

(** ** Properties of the retrievals *)

Module RetrievalProperties.
Import Codec Scoring Retriever Ranking RankingFacts RetrieverFacts ScoringFacts.

Section properties.
Context {F : Type} `{Runtime F}.

Lemma cosine_similarity_Raise (a b : ndarray) (e : exn) :
  cosine_similarity (F := F) a b = Raise e →
  e = ShapesNotAligned (length a) (length b) ∧ length a ≠ length b.
Proof.
  destruct (decide (length a = length b)) as [Heq|Hne].
  - rewrite cosine_similarity_aligned by exact Heq. discriminate.
  - rewrite cosine_similarity_mismatch by exact Hne. intros [= <-]. auto.
Qed.

Lemma l2_distance_Raise (a b : ndarray) (e : exn) :
  l2_distance (F := F) a b = Raise e →
  e = CannotBroadcast (length a) (length b) ∧ length a ≠ length b.
Proof.
  unfold l2_distance, broadcast_sub. rewrite !length_values.
  destruct (decide (length a = length b)) as [Heq|Hne]; [discriminate|].
  destruct (values a) as [|x [|x' va]], (values b) as [|y [|y' vb]];
    simpl; try discriminate; intros [= <-]; auto.
Qed.

(** C3, amended.  A dimension mismatch makes the scoring function raise,
    and the handler of the retrieval catches it: [retrieve_similar_chunks]
    returns the empty list and prints the error when some stored embedding
    has another length than the query embedding, and so does
    [retrieve_by_l2_distance] when some stored embedding can neither be
    aligned nor broadcast. *)
Theorem dimension_mismatch_is_caught (query : string) (top_k : Z) (thr maxd : F)
    (w w1 : world) (qe : ndarray) (cs : list (Z * string * ndarray)) :
  fetch query w = (Ok (qe, cs), w1) →
  ((∃ c, c ∈ cs ∧ length c.2 ≠ length qe) →
   ∃ m, m ≠ length qe ∧
     retrieve_similar_chunks query top_k thr w =
     (Ok [], emit (Print "Error in similarity search: "
                     (ShapesNotAligned (length qe) m)) w1)) ∧
  ((∃ c, c ∈ cs ∧ length c.2 ≠ length qe ∧
         length c.2 ≠ 1%nat ∧ length qe ≠ 1%nat) →
   ∃ m, m ≠ length qe ∧
     retrieve_by_l2_distance query top_k maxd w =
     (Ok [], emit (Print "Error in L2 distance search: "
                     (CannotBroadcast (length qe) m)) w1)).
Proof.
  intros Hfetch. split.
  - intros (c & Hc & Hlen).
    destruct (score_chunks_raises cosine_similarity qe cs) as (c' & e & _ & He & Hrun).
    { exists c. eexists. split; [exact Hc|].
      apply cosine_similarity_mismatch. intros Heq. apply Hlen. symmetry. exact Heq. }
    apply cosine_similarity_Raise in He as [-> Hne].
    exists (length c'.2). split; [intros Heq; apply Hne; symmetry; exact Heq|].
    rewrite retrieve_similar_chunks_run, Hfetch, Hrun. reflexivity.
  - intros (c & Hc & Hlen & Hc1 & Hq1).
    destruct (score_chunks_raises l2_distance qe cs) as (c' & e & _ & He & Hrun).
    { exists c. eexists. split; [exact Hc|].
      apply l2_distance_mismatch; [|exact Hq1|exact Hc1].
      intros Heq. apply Hlen. symmetry. exact Heq. }
    apply l2_distance_Raise in He as [-> Hne].
    exists (length c'.2). split; [intros Heq; apply Hne; symmetry; exact Heq|].
    rewrite retrieve_by_l2_distance_run, Hfetch, Hrun. reflexivity.
Qed.

(** C8, amended.  When obtaining the query embedding or reading the store
    fails, [retrieve_similar_chunks] and [retrieve_by_l2_distance] return
    the empty list and print the failure; [hybrid_search] never raises,
    and returns the empty list, with both failures printed, when both of
    its retrievals fail. *)
Theorem failures_are_caught `{!SetLaws F} (query : string) (top_k : Z)
    (thr maxd cw lw : F) (w : world) :
  (∀ e w1, fetch query w = (Raise e, w1) →
     retrieve_similar_chunks query top_k thr w =
     (Ok [], emit (Print "Error in similarity search: " e) w1)) ∧
  (∀ e w1, fetch query w = (Raise e, w1) →
     retrieve_by_l2_distance query top_k maxd w =
     (Ok [], emit (Print "Error in L2 distance search: " e) w1)) ∧
  (∀ e1 w1 e2 w2,
     fetch query w = (Raise e1, w1) → fetch query w1 = (Raise e2, w2) →
     hybrid_search query top_k cw lw w =
     (Ok [], emit (Print "Error in L2 distance search: " e2)
               (emit (Print "Error in similarity search: " e1) w2))) ∧
  (∃ r w', hybrid_search query top_k cw lw w = (Ok r, w')).
Proof.
  repeat split.
  - intros e w1 Hf. rewrite retrieve_similar_chunks_run, Hf. reflexivity.
  - intros e w1 Hf. rewrite retrieve_by_l2_distance_run, Hf. reflexivity.
  - intros e1 w1 e2 w2 Hf1 Hf2.
    erewrite hybrid_search_run.
    + rewrite merge_results_nil. reflexivity.
    + rewrite retrieve_similar_chunks_run, Hf1. reflexivity.
    + rewrite retrieve_by_l2_distance_run, fetch_emit, Hf2. reflexivity.
  - apply hybrid_search_returns.
Qed.

Lemma retrieve_similar_chunks_top0 (query : string) (thr : F) (w : world) :
  ∃ w', retrieve_similar_chunks query 0 thr w = (Ok [], w').
Proof.
  rewrite retrieve_similar_chunks_run.
  destruct (fetch query w) as [[[qe cs]|e] w']; [|eauto].
  destruct (score_chunks cosine_similarity qe cs); eauto.
Qed.

Lemma retrieve_by_l2_distance_top0 (query : string) (maxd : F) (w : world) :
  ∃ w', retrieve_by_l2_distance query 0 maxd w = (Ok [], w').
Proof.
  rewrite retrieve_by_l2_distance_run.
  destruct (fetch query w) as [[[qe cs]|e] w']; [|eauto].
  destruct (score_chunks l2_distance qe cs); eauto.
Qed.

Lemma retrieve_similar_chunks_empty_store (query : string) (top_k : Z) (thr : F)
    (w : world) :
  Db.chunks (db w) = [] →
  ∃ w', retrieve_similar_chunks query top_k thr w = (Ok [], w') ∧ db w' = db w ∧
        (∀ i w1, fetch query w = (Ok i, w1) → w' = w1).
Proof.
  intros Hempty. pose proof (retrieve_similar_chunks_db query top_k thr w) as Hdb.
  rewrite retrieve_similar_chunks_run in *.
  destruct (fetch query w) as [[[qe cs]|e] w'] eqn:Hf.
  - rewrite (fetch_empty_store _ _ _ _ _ Hempty Hf) in *.
    rewrite score_chunks_nil, sort_nil, filter_nil, slice_to_nil in *.
    eexists. split; [reflexivity|]. split; [exact Hdb|]. congruence.
  - eexists. split; [reflexivity|]. split; [exact Hdb|]. discriminate.
Qed.

Lemma retrieve_by_l2_distance_empty_store (query : string) (top_k : Z) (maxd : F)
    (w : world) :
  Db.chunks (db w) = [] →
  ∃ w', retrieve_by_l2_distance query top_k maxd w = (Ok [], w') ∧
        (∀ i w1, fetch query w = (Ok i, w1) → w' = w1).
Proof.
  intros Hempty. rewrite retrieve_by_l2_distance_run.
  destruct (fetch query w) as [[[qe cs]|e] w'] eqn:Hf.
  - rewrite (fetch_empty_store _ _ _ _ _ Hempty Hf) in *.
    rewrite score_chunks_nil, sort_nil, filter_nil, slice_to_nil.
    eexists. split; [reflexivity|]. congruence.
  - eexists. split; [reflexivity|]. discriminate.
Qed.

(** C4, amended.  Each of the three retrievals returns the empty list
    when [top_k] is 0, and returns the empty list without raising when the
    store holds no chunk, whatever [top_k] is; with an empty store the two
    basic retrievals print nothing unless the inputs could not be
    obtained. *)
Theorem empty_results `{!SetLaws F} (query : string) (thr maxd cw lw : F) (w : world) :
  ((∃ w', retrieve_similar_chunks query 0 thr w = (Ok [], w')) ∧
   (∃ w', retrieve_by_l2_distance query 0 maxd w = (Ok [], w')) ∧
   (∃ w', hybrid_search query 0 cw lw w = (Ok [], w'))) ∧
  (Db.chunks (db w) = [] →
   ∀ top_k,
     (∃ w', retrieve_similar_chunks query top_k thr w = (Ok [], w') ∧
            ∀ i w1, fetch query w = (Ok i, w1) → w' = w1) ∧
     (∃ w', retrieve_by_l2_distance query top_k maxd w = (Ok [], w') ∧
            ∀ i w1, fetch query w = (Ok i, w1) → w' = w1) ∧
     (∃ w', hybrid_search query top_k cw lw w = (Ok [], w'))).
Proof.
  split; [repeat split|intros Hempty top_k; repeat split].
  - apply retrieve_similar_chunks_top0.
  - apply retrieve_by_l2_distance_top0.
  - destruct (retrieve_similar_chunks_top0 query fzero w) as (w1 & H1).
    destruct (retrieve_by_l2_distance_top0 query finf w1) as (w2 & H2).
    exists w2. erewrite hybrid_search_run; [|exact H1|exact H2].
    rewrite merge_results_nil. reflexivity.
  - destruct (retrieve_similar_chunks_empty_store query top_k thr w Hempty)
      as (w' & Hrun & _ & Hw). eauto.
  - apply retrieve_by_l2_distance_empty_store. exact Hempty.
  - destruct (retrieve_similar_chunks_empty_store query (top_k * 2) fzero w Hempty)
      as (w1 & H1 & Hdb & _).
    destruct (retrieve_by_l2_distance_empty_store query (top_k * 2) finf w1)
      as (w2 & H2 & _); [congruence|].
    exists w2. erewrite hybrid_search_run; [|exact H1|exact H2].
    rewrite merge_results_nil. reflexivity.
Qed.

Section ordered.
Context `{!OrderLaws F}.






End ordered.


(** *** [hybrid_search] with weights 1 and 0 *)

Section cosine_only.
Context `{!OrderLaws F} `{!WeightLaws F} `{!SetLaws F}.












End cosine_only.

(** *** The context assembler *)

Lemma length_append (s1 s2 : string) :
  String.length (s1 +:+ s2) = (String.length s1 + String.length s2)%nat.
Proof. induction s1 as [|c s1 IH]; simpl; [reflexivity|]. rewrite IH. reflexivity. Qed.

Lemma len_append (s1 s2 : string) : len (s1 +:+ s2) = len s1 + len s2.
Proof. unfold len. rewrite length_append. lia. Qed.

Lemma join_length (sep : string) (parts : list string) :
  len (join sep parts) =
  foldr (λ p n, len p + n) 0 parts + len sep * Z.of_nat (length parts - 1).
Proof.
  induction parts as [|p [|q parts] IH].
  - unfold len. simpl. lia.
  - unfold len. simpl. lia.
  - change (join sep (p :: q :: parts)) with (p +:+ sep +:+ join sep (q :: parts)).
    rewrite !len_append, IH.
    change (foldr (λ p0 n, len p0 + n) 0 (p :: q :: parts))
      with (len p + foldr (λ p0 n, len p0 + n) 0 (q :: parts)).
    simpl length.
    replace (S (length parts) - 1)%nat with (length parts) by lia.
    replace (S (S (length parts)) - 1)%nat with (S (length parts)) by lia.
    rewrite Nat2Z.inj_succ. nia.
Qed.

(** The loop keeps a prefix of the rendered chunks whose lengths, without
    the separators, stay within the bound. *)
Lemma context_parts_bound (chunks : list scored) (current_length max_length : Z) :
  let parts := context_parts chunks current_length max_length in
  parts = take (length parts) (chunk_with_score <$> chunks) ∧
  (parts ≠ [] → current_length + foldr (λ p n, len p + n) 0 parts ≤ max_length).
Proof.
  revert current_length. induction chunks as [|x chunks IH]; intros cur; simpl.
  - split; [reflexivity|congruence].
  - destruct (decide (cur + len (chunk_with_score x) > max_length)) as [Hover|Hfit].
    + split; [reflexivity|congruence].
    + specialize (IH (cur + len (chunk_with_score x))). simpl in IH.
      destruct IH as [Hpre Hsum]. simpl. split; [f_equal; exact Hpre|].
      intros _. destruct (context_parts chunks _ max_length) eqn:Hparts.
      * simpl. lia.
      * specialize (Hsum ltac:(congruence)). lia.
Qed.

(** With the separators, the returned string can exceed the bound by two
    characters for each part after the first, and by no more. *)
Lemma build_context_length (chunks : list scored) (max_length : Z) :
  let parts := context_parts chunks 0 max_length in
  parts ≠ [] →
  len (build_context_from_chunks chunks max_length) =
    foldr (λ p n, len p + n) 0 parts + 2 * Z.of_nat (length parts - 1) ∧
  len (build_context_from_chunks chunks max_length) ≤
    max_length + 2 * Z.of_nat (length parts - 1).
Proof.
  intros parts Hparts.
  assert (Hlen : len (build_context_from_chunks chunks max_length) =
            foldr (λ p n, len p + n) 0 parts + 2 * Z.of_nat (length parts - 1)).
  { unfold build_context_from_chunks. destruct chunks as [|x chunks].
    - exfalso. apply Hparts. reflexivity.
    - fold parts. rewrite join_length. reflexivity. }
  split; [exact Hlen|]. rewrite Hlen.
  pose proof (context_parts_bound chunks 0 max_length) as [_ Hsum].
  specialize (Hsum Hparts). fold parts in Hsum. lia.
Qed.

End properties.
End RetrievalProperties.

(** ** The claims on sample inputs *)

Module Checks.
Import Codec Scoring Retriever Ranking RankingFacts RetrieverFacts RetrievalProperties.
Import Exact ExactLaws Samples.



(** C2, on the code: two parts of 20 characters fit the bound 40 one
    after the other, and the string joined with a blank line has 42
    characters. *)
Theorem build_context_exceeds_bound :
  let chunks := [(1, "AAAAA", 1%Qc); (2, "BBBBB", Q2Qc (9 # 10))] in
  build_context_from_chunks chunks 40 =
    "[Score: 1.000] AAAAA" +:+ blank_line +:+ "[Score: 0.900] BBBBB" ∧
  len (build_context_from_chunks chunks 40) = 42.
Proof. split; vm_compute; reflexivity. Qed.

(** C3 as stated fails: with a query embedding of dimension 2 and a
    stored embedding of dimension 3 the scoring function raises, and both
    retrievals return the empty list and print the error. *)
Lemma dimension_mismatch_counterexample :
  let w := world_of wide_chunk (always [one; zero]) in
  cosine_similarity (F := Qc) [one; zero] [one; zero; zero] =
    Raise (ShapesNotAligned 2 3) ∧
  returned (retrieve_similar_chunks "q" 5 (Q2Qc (1 # 2)) w) = Ok [] ∧
  output (retrieve_similar_chunks "q" 5 (Q2Qc (1 # 2)) w) =
    [Print "Error in similarity search: " (ShapesNotAligned 2 3)] ∧
  returned (retrieve_by_l2_distance "q" 5 (Q2Qc 2) w) = Ok [] ∧
  output (retrieve_by_l2_distance "q" 5 (Q2Qc 2) w) =
    [Print "Error in L2 distance search: " (CannotBroadcast 2 3)].
Proof. intros w. repeat split; decided. Qed.

(** A query embedding of dimension 2 against a stored one of dimension 3. *)
Lemma dimension_mismatch_is_caught_witness :
  let w := world_of wide_chunk (always [one; zero]) in
  ∃ m, m ≠ 2%nat ∧
    retrieve_similar_chunks "q" 5 (Q2Qc (1 # 2)) w =
    (Ok [], emit (Print "Error in similarity search: " (ShapesNotAligned 2 m))
              (tick_db (tick_embed w))).
Proof.
  intros w.
  refine (proj1 (dimension_mismatch_is_caught (F := Qc) "q" 5 (Q2Qc (1 # 2)) 0%Qc
                   w (tick_db (tick_embed w)) [one; zero]
                   [(1, "wide", [one; zero; zero])] _) _).
  - vm_compute. reflexivity.
  - exists (1, "wide", [one; zero; zero]). split; [left|]. simpl. lia.
Defined.

(** C4 as stated fails for a negative [top_k]: with two stored chunks,
    [top_k = -1] makes both basic retrievals return one chunk. *)
Lemma negative_top_k_counterexample :
  let w := world_of two_chunks (always [one; zero]) in
  -1 ≤ 0 ∧
  returned (retrieve_by_l2_distance "q" (-1) (Q2Qc 2) w) = Ok [(1, "first", 0%Qc)] ∧
  returned (retrieve_by_l2_distance "q" (-1) (Q2Qc 2) w) ≠ Ok [] ∧
  returned (retrieve_similar_chunks "q" (-1) 0%Qc w) = Ok [(1, "first", 1%Qc)] ∧
  returned (retrieve_similar_chunks "q" (-1) 0%Qc w) ≠ Ok [].
Proof.
  intros w.
  assert (H1 : returned (retrieve_by_l2_distance "q" (-1) (Q2Qc 2) w) =
               Ok [(1, "first", 0%Qc)]) by decided.
  assert (H2 : returned (retrieve_similar_chunks "q" (-1) 0%Qc w) =
               Ok [(1, "first", 1%Qc)]) by decided.
  split; [lia|]. split; [exact H1|]. split; [rewrite H1; discriminate|].
  split; [exact H2|]. rewrite H2. discriminate.
Qed.

(** The retrievals on a fresh store. *)
Lemma empty_results_witness :
  let w := world_of Db.init (always [one; zero]) in
  (∃ w', retrieve_similar_chunks "q" 5 (Q2Qc (1 # 2)) w = (Ok [], w')) ∧
  (∃ w', hybrid_search "q" 5 (Q2Qc (7 # 10)) (Q2Qc (3 # 10)) w = (Ok [], w')).
Proof.
  intros w.
  destruct (proj2 (empty_results (F := Qc) "q" (Q2Qc (1 # 2)) (Q2Qc 2)
                     (Q2Qc (7 # 10)) (Q2Qc (3 # 10)) w) eq_refl 5)
    as ((w1 & H1 & _) & _ & H3).
  split; [exists w1; exact H1|exact H3].
Defined.


(** C8 as stated fails for [hybrid_search]: when the embedding request of
    its first retrieval fails and that of the second succeeds, it prints
    the failure and still returns the candidates of the second. *)
Lemma hybrid_partial_failure_counterexample :
  let w := world_of one_chunk (down_once [one; zero]) in
  returned (fetch "q" w) = Raise (EmbeddingError "connection refused") ∧
  returned (hybrid_search "q" 1 (Q2Qc (7 # 10)) (Q2Qc (3 # 10)) w) =
    Ok [(1, "first", Q2Qc (3 # 10))] ∧
  output (hybrid_search "q" 1 (Q2Qc (7 # 10)) (Q2Qc (3 # 10)) w) =
    [Print "Error in similarity search: " (EmbeddingError "connection refused")].
Proof. intros w. repeat split; decided. Qed.

(** The retrievals when the embedding service refuses every request. *)
Lemma failures_are_caught_witness :
  let w := world_of one_chunk refusing in
  returned (retrieve_similar_chunks "q" 5 (Q2Qc (1 # 2)) w) = Ok [] ∧
  returned (hybrid_search "q" 5 (Q2Qc (7 # 10)) (Q2Qc (3 # 10)) w) = Ok [].
Proof.
  intros w.
  pose proof (failures_are_caught (F := Qc) "q" 5 (Q2Qc (1 # 2)) (Q2Qc 2)
                (Q2Qc (7 # 10)) (Q2Qc (3 # 10)) w) as (H1 & _ & H3 & _).
  split.
  - rewrite (H1 (EmbeddingError "connection refused") (tick_embed w)) by reflexivity.
    reflexivity.
  - rewrite (H3 (EmbeddingError "connection refused") (tick_embed w)
               (EmbeddingError "connection refused") (tick_embed (tick_embed w)))
      by reflexivity.
    reflexivity.
Defined.


End Checks.

(** * Further properties *)

(** ** Keys and counters of the store *)

Module DbOpsFacts.
Import Codec Db DbOps.

Lemma foldr_max_nonneg (ids : list Z) : 0 ≤ foldr Z.max 0 ids.
Proof. induction ids as [|a ids IH]; simpl; lia. Qed.

Lemma next_rowid_above (tbl : string) (ids : list Z) (s : Db.t) :
  counter tbl s < next_rowid tbl ids s ∧ 0 < next_rowid tbl ids s ∧
  ∀ id, id ∈ ids → id < next_rowid tbl ids s.
Proof.
  unfold next_rowid, counter. pose proof (foldr_max_nonneg ids).
  repeat split; try lia.
  intros id Hid. apply DbFacts.foldr_max_bound in Hid. lia.
Qed.

(** No operation lowers a counter. *)
Lemma counter_exec (tbl : string) (s : Db.t) (o : op) :
  counter tbl s ≤ counter tbl (exec s o).
Proof.
  destruct o as [f n|d t v|u b n|d]; simpl; unfold counter; simpl;
    try lia.
  - destruct (decide (tbl = "documents")) as [->|Hne].
    + rewrite lookup_insert_eq. simpl.
      pose proof (next_rowid_above "documents" (d_doc_id <$> documents s) s) as [Hc _].
      unfold counter in Hc. lia.
    + rewrite lookup_insert_ne by congruence. lia.
  - destruct (decide (tbl = "chunks")) as [->|Hne].
    + rewrite lookup_insert_eq. simpl.
      pose proof (next_rowid_above "chunks" (c_chunk_id <$> chunks s) s) as [Hc _].
      unfold counter in Hc. lia.
    + rewrite lookup_insert_ne by congruence. lia.
  - destruct (decide (tbl = "chats")) as [->|Hne].
    + rewrite lookup_insert_eq. simpl.
      pose proof (next_rowid_above "chats" (h_chat_id <$> chats s) s) as [Hc _].
      unfold counter in Hc. lia.
    + rewrite lookup_insert_ne by congruence. lia.
Qed.

Lemma counter_run (tbl : string) (ops : list op) (s : Db.t) :
  counter tbl s ≤ counter tbl (run s ops).
Proof.
  revert s. induction ops as [|o ops IH]; intros s; simpl; [lia|].
  eapply Z.le_trans; [apply (counter_exec tbl s o)|]. apply (IH (exec s o)).
Qed.

(** X1.  Document ids are never reused: the id [add_document] returns is above
    every id in the table, and every id returned later, whatever was
    added or deleted in between, is above it. *)
Theorem document_ids_never_reused (s : Db.t) (file_name now file_name' now' : string)
    (ops : list op) :
  let added := add_document s file_name now in
  (∀ id, id ∈ d_doc_id <$> documents s → id < added.2) ∧
  added.2 < (add_document (run added.1 ops) file_name' now').2.
Proof.
  intros added. split.
  - apply next_rowid_above.
  - assert (Hc : counter "documents" added.1 = added.2).
    { unfold added, add_document, counter. simpl. rewrite lookup_insert_eq. reflexivity. }
    pose proof (counter_run "documents" ops added.1) as Hrun.
    pose proof (next_rowid_above "documents"
                  (d_doc_id <$> documents (run added.1 ops)) (run added.1 ops)) as [Hn _].
    apply Z.le_lt_trans with (counter "documents" (run added.1 ops));
      [rewrite <- Hc; exact Hrun|exact Hn].
Qed.

Lemma NoDup_fmap_filter {A} (f : A → Z) (P : A → Prop) `{∀ x, Decision (P x)}
    (l : list A) :
  NoDup (f <$> l) → NoDup (f <$> filter P l).
Proof.
  induction l as [|a l IH]; intros Hnd; [constructor|].
  rewrite fmap_cons in Hnd. apply NoDup_cons in Hnd as [Ha Hnd].
  rewrite filter_cons. destruct (decide (P a)); [|auto].
  rewrite fmap_cons. apply NoDup_cons. split; [|auto].
  intros Hin. apply Ha. apply list_elem_of_fmap in Hin as (b & Heq & Hb).
  apply list_elem_of_filter in Hb as [_ Hb]. rewrite Heq.
  apply list_elem_of_fmap_2. exact Hb.
Qed.

Lemma keys_ok_insert (tbl : string) (ids : list Z) (s s' : Db.t) :
  keys_ok tbl ids s →
  counter tbl s' = next_rowid tbl ids s →
  keys_ok tbl (ids ++ [next_rowid tbl ids s]) s'.
Proof.
  intros [Hnd Hb] Hc.
  pose proof (next_rowid_above tbl ids s) as (Hcs & Hpos & Hids).
  split.
  - apply NoDup_app. split; [exact Hnd|]. split; [|apply NoDup_singleton].
    intros id Hid Hnew. apply list_elem_of_singleton in Hnew.
    specialize (Hids id Hid). lia.
  - intros id Hid. rewrite Hc. apply elem_of_app in Hid as [Hid|Hid].
    + specialize (Hb id Hid). lia.
    + apply list_elem_of_singleton in Hid. lia.
Qed.

Lemma keys_ok_keep (tbl : string) (ids : list Z) (s s' : Db.t) :
  keys_ok tbl ids s → counter tbl s ≤ counter tbl s' → keys_ok tbl ids s'.
Proof.
  intros [Hnd Hb] Hc. split; [exact Hnd|].
  intros id Hid. specialize (Hb id Hid). lia.
Qed.

Lemma keys_ok_filter {A} (tbl : string) (f : A → Z) (P : A → Prop)
    `{∀ x, Decision (P x)} (l : list A) (s s' : Db.t) :
  counter tbl s ≤ counter tbl s' →
  keys_ok tbl (f <$> l) s → keys_ok tbl (f <$> filter P l) s'.
Proof.
  intros Hc [Hnd Hb]. split; [apply NoDup_fmap_filter; exact Hnd|].
  intros id Hid. apply list_elem_of_fmap in Hid as (r & -> & Hr).
  apply list_elem_of_filter in Hr as [_ Hr].
  specialize (Hb (f r) (list_elem_of_fmap_2 f l r Hr)). lia.
Qed.

(** The three primary keys together. *)
Lemma keys_exec (s : Db.t) (o : op) :
  keys_ok "documents" (d_doc_id <$> documents s) s ∧
  keys_ok "chunks" (c_chunk_id <$> chunks s) s ∧
  keys_ok "chats" (h_chat_id <$> chats s) s →
  keys_ok "documents" (d_doc_id <$> documents (exec s o)) (exec s o) ∧
  keys_ok "chunks" (c_chunk_id <$> chunks (exec s o)) (exec s o) ∧
  keys_ok "chats" (h_chat_id <$> chats (exec s o)) (exec s o).
Proof.
  intros (Hd & Hc & Hh).
  pose proof (counter_exec "documents" s o) as Cd.
  pose proof (counter_exec "chunks" s o) as Cc.
  pose proof (counter_exec "chats" s o) as Ch.
  destruct o as [f n|d t v|u b n|d]; simpl in *.
  - split; [|split; eapply keys_ok_keep; eassumption].
    rewrite fmap_app. apply keys_ok_insert; [exact Hd|].
    unfold counter. simpl. rewrite lookup_insert_eq. reflexivity.
  - split; [eapply keys_ok_keep; eassumption|].
    split; [|eapply keys_ok_keep; eassumption].
    rewrite fmap_app. apply keys_ok_insert; [exact Hc|].
    unfold counter. simpl. rewrite lookup_insert_eq. reflexivity.
  - split; [eapply keys_ok_keep; eassumption|].
    split; [eapply keys_ok_keep; eassumption|].
    rewrite fmap_app. apply keys_ok_insert; [exact Hh|].
    unfold counter. simpl. rewrite lookup_insert_eq. reflexivity.
  - split; [|split; [|exact Hh]].
    + eapply keys_ok_filter, Hd. exact Cd.
    + eapply keys_ok_filter, Hc. exact Cc.
Qed.

(** X2.  Primary keys hold in every state the operations of the store reach
    from a fresh database: in each table the ids are positive, pairwise
    distinct and not above the table's counter. *)
Theorem primary_keys (ops : list op) :
  let s := run init ops in
  keys_ok "documents" (d_doc_id <$> documents s) s ∧
  keys_ok "chunks" (c_chunk_id <$> chunks s) s ∧
  keys_ok "chats" (h_chat_id <$> chats s) s.
Proof.
  simpl.
  assert (Hgen : ∀ s,
            keys_ok "documents" (d_doc_id <$> documents s) s ∧
            keys_ok "chunks" (c_chunk_id <$> chunks s) s ∧
            keys_ok "chats" (h_chat_id <$> chats s) s →
            keys_ok "documents" (d_doc_id <$> documents (run s ops)) (run s ops) ∧
            keys_ok "chunks" (c_chunk_id <$> chunks (run s ops)) (run s ops) ∧
            keys_ok "chats" (h_chat_id <$> chats (run s ops)) (run s ops)).
  { induction ops as [|o ops IH]; intros s Hs; [exact Hs|].
    simpl. apply IH, keys_exec. exact Hs. }
  apply Hgen. unfold keys_ok. simpl.
  repeat split; try apply NoDup_nil_2;
    match goal with H : _ ∈ [] |- _ => inversion H end.
Qed.

End DbOpsFacts.

(** ** Writes and reads of the store *)

Module DbMoreFacts.
Import Codec Db DbOps DbQueries.

Lemma filter_idemp {A} (P : A → Prop) `{∀ x, Decision (P x)} (l : list A) :
  filter P (filter P l) = filter P l.
Proof.
  apply DbFacts.filter_all. intros x Hx. apply list_elem_of_filter in Hx. tauto.
Qed.

Lemma filter_comm {A} (P Q : A → Prop) `{∀ x, Decision (P x)} `{∀ x, Decision (Q x)}
    (l : list A) :
  filter P (filter Q l) = filter Q (filter P l).
Proof.
  induction l as [|a l IH]; [reflexivity|].
  rewrite !filter_cons.
  destruct (decide (Q a)), (decide (P a));
    rewrite ?filter_cons_True, ?filter_cons_False by assumption;
    rewrite IH; reflexivity.
Qed.

(** X3.  Deleting a document twice is deleting it once, and deletions of two
    documents can be done in either order. *)
Theorem delete_document_compose (s : Db.t) (d d' : Z) :
  delete_document (delete_document s d) d = delete_document s d ∧
  delete_document (delete_document s d) d' =
  delete_document (delete_document s d') d.
Proof.
  unfold delete_document, delete_document_row, delete_chunks_of. simpl. split.
  - rewrite !filter_idemp. reflexivity.
  - rewrite (filter_comm (λ r, d_doc_id r ≠ d')), (filter_comm (λ r, c_doc_id r ≠ d')).
    reflexivity.
Qed.

(** X4.  A write to one table leaves the reads of the others alone: adding a
    chunk does not change the chunks of another document, the document
    rows or the chat rows, and adding a document or a chat turn does not
    change what [get_all_chunks] returns. *)
Theorem writes_are_local (s : Db.t) (d d' : Z) (text : string) (v : ndarray)
    (a b c : string) :
  d' ≠ d →
  get_document_chunks (add_chunk s d text v) d' = get_document_chunks s d' ∧
  documents (add_chunk s d text v) = documents s ∧
  chats (add_chunk s d text v) = chats s ∧
  get_all_chunks (add_document s a b).1 = get_all_chunks s ∧
  get_all_chunks (add_chat s a b c) = get_all_chunks s.
Proof.
  intros Hne. repeat split.
  unfold get_document_chunks, add_chunk. simpl.
  rewrite filter_app, filter_cons_False, filter_nil, app_nil_r by (simpl; congruence).
  reflexivity.
Qed.

(** Adding a chunk under document 2 and reading the chunks of document 1. *)
Lemma writes_are_local_witness :
  get_document_chunks (add_chunk Samples.one_chunk 2 "other" [0]) 1 =
  get_document_chunks Samples.one_chunk 1.
Proof.
  refine (proj1 (writes_are_local Samples.one_chunk 2 1 "other" [0] "" "" "" _)).
  lia.
Defined.

(** X5.  Deleting the document that [add_document] just made restores the
    document rows and leaves the chat rows alone, but the counter keeps
    the id, and chunk rows that already carried that id are deleted. *)
Theorem add_then_delete_document (s : Db.t) (file_name now : string) :
  let added := add_document s file_name now in
  let s' := delete_document added.1 added.2 in
  documents s' = documents s ∧
  chats s' = chats s ∧
  chunks s' = filter (λ r, c_doc_id r ≠ added.2) (chunks s) ∧
  counter "documents" s' = added.2 ∧
  counter "documents" s < added.2.
Proof.
  intros added s'.
  pose proof (DbOpsFacts.next_rowid_above "documents" (d_doc_id <$> documents s) s)
    as (Hc & _ & Hids).
  repeat split.
  - unfold s', added, delete_document, add_document. simpl.
    rewrite filter_app, filter_cons_False, filter_nil, app_nil_r
      by (simpl; intros Hn; apply Hn; reflexivity).
    apply DbFacts.filter_all. intros r Hr.
    specialize (Hids (d_doc_id r) (list_elem_of_fmap_2 d_doc_id _ r Hr)). lia.
  - unfold s', added, delete_document, add_document, counter. simpl.
    rewrite lookup_insert_eq. reflexivity.
  - exact Hc.
Qed.

Section ordered_queries.
Context `{SqlOrder} `{!SqlOrderLaws}.

(** X6.  [get_chat_history(limit)] returns [limit] turns when that many are
    stored and all of them otherwise; a negative limit returns all; every
    turn returned is a stored one. *)
Theorem chat_history_limit (s : Db.t) (limit : Z) :
  (0 ≤ limit →
   length (get_chat_history s limit) = Nat.min (Z.to_nat limit) (length (chats s))) ∧
  (limit < 0 → length (get_chat_history s limit) = length (chats s)) ∧
  (∀ x, x ∈ get_chat_history s limit →
     ∃ r, r ∈ chats s ∧ x = (h_user_input r, h_bot_output r, h_timestamp r)).
Proof.
  pose proof (order_chats_perm (chats s)) as Hperm.
  unfold get_chat_history, sql_limit. repeat split.
  - intros Hl. destruct (decide (limit < 0)); [lia|].
    rewrite length_fmap, length_take, (Permutation_length Hperm). reflexivity.
  - intros Hl. destruct (decide (limit < 0)); [|lia].
    rewrite length_fmap, (Permutation_length Hperm). reflexivity.
  - intros x Hx. apply list_elem_of_fmap in Hx as (r & -> & Hr).
    exists r. split; [|reflexivity]. rewrite <- Hperm.
    destruct (decide (limit < 0)); [exact Hr|].
    apply elem_of_take in Hr as (i & Hi & _).
    eapply list_elem_of_lookup_2. exact Hi.
Qed.

(** X7.  [get_documents()] lists each stored document once: the document
    [add_document] made is listed under the returned id, and after
    [delete_document(d)] the listing is the old one without the documents
    of id [d]. *)
Theorem documents_listing (s : Db.t) :
  length (get_documents s) = length (documents s) ∧
  (∀ x, x ∈ get_documents s ↔
        ∃ r, r ∈ documents s ∧ x = (d_doc_id r, d_file_name r, d_uploaded_at r)) ∧
  (∀ file_name now,
     let added := add_document s file_name now in
     (added.2, file_name, now) ∈ get_documents added.1) ∧
  (∀ d x, x ∈ get_documents (delete_document s d) ↔
          x ∈ get_documents s ∧ x.1.1 ≠ d).
Proof.
  assert (Hin : ∀ s' x, x ∈ get_documents s' ↔
            ∃ r, r ∈ documents s' ∧ x = (d_doc_id r, d_file_name r, d_uploaded_at r)).
  { intros s' x. unfold get_documents. rewrite list_elem_of_fmap.
    split; intros (r & Hx & Hr); exists r.
    - rewrite <- (order_documents_perm (documents s')). auto.
    - rewrite (order_documents_perm (documents s')). auto. }
  repeat split.
  - unfold get_documents.
    rewrite length_fmap, (Permutation_length (order_documents_perm _)). reflexivity.
  - apply Hin.
  - apply Hin.
  - intros file_name now added. apply Hin. eexists. split.
    + unfold added, add_document. simpl. apply elem_of_app. right. left.
    + reflexivity.
  - apply Hin in H1 as (r & Hr & ->).
    unfold delete_document in Hr. simpl in Hr.
    apply list_elem_of_filter in Hr as [_ Hr]. apply Hin. eauto.
  - apply Hin in H1 as (r & Hr & ->).
    unfold delete_document in Hr. simpl in Hr.
    apply list_elem_of_filter in Hr as [Hne _]. exact Hne.
  - intros [Hx Hne]. apply Hin in Hx as (r & Hr & ->). apply Hin.
    exists r. split; [|reflexivity].
    unfold delete_document. simpl. apply list_elem_of_filter. auto.
Qed.

End ordered_queries.

#[export] Instance newest_first_laws : SqlOrderLaws (H := MoreSamples.newest_first).
Proof. split; intros l; simpl; apply reverse_Permutation. Qed.

(** The last of two stored chat turns, newest first. *)
Lemma chat_history_limit_witness :
  length (get_chat_history (H := MoreSamples.newest_first) MoreSamples.two_chats 1) = 1%nat.
Proof.
  exact (proj1 (chat_history_limit (H := MoreSamples.newest_first)
                  MoreSamples.two_chats 1) ltac:(lia)).
Defined.

(** The listing of a store with one document. *)
Lemma documents_listing_witness :
  length (get_documents (H := MoreSamples.newest_first) Samples.one_document) = 1%nat.
Proof.
  exact (proj1 (documents_listing (H := MoreSamples.newest_first) Samples.one_document)).
Defined.

End DbMoreFacts.

(** ** Symmetry of the scoring functions *)

Module ScoringMoreFacts.
Import Codec Scoring ScoringFacts.

Section symmetry.
Context {F : Type} `{Runtime F}.

Lemma dot_sum_acc_comm `{!SymLaws F} (a b : list F) (acc : F) :
  foldl (λ acc xy, fadd acc (fmul xy.1 xy.2)) acc (zip a b) =
  foldl (λ acc xy, fadd acc (fmul xy.1 xy.2)) acc (zip b a).
Proof.
  revert b acc. induction a as [|x a IH]; intros [|y b] acc; try reflexivity.
  simpl. rewrite (fmul_comm x y). apply IH.
Qed.

Lemma dot_sum_comm `{!SymLaws F} (a b : list F) : dot_sum a b = dot_sum b a.
Proof. apply dot_sum_acc_comm. Qed.

(** The sum of squares of two lists whose elements have equal squares. *)
Lemma sum_squares_equal (l l' : list F) (acc : F) :
  Forall2 (λ u v, fmul u u = fmul v v) l l' →
  foldl (λ acc xy, fadd acc (fmul xy.1 xy.2)) acc (zip l l) =
  foldl (λ acc xy, fadd acc (fmul xy.1 xy.2)) acc (zip l' l').
Proof.
  intros Hsq. revert acc. induction Hsq as [|u v l l' Huv _ IH]; intros acc.
  - reflexivity.
  - simpl. rewrite Huv. apply IH.
Qed.

Lemma norm_equal_squares (l l' : list F) :
  Forall2 (λ u v, fmul u u = fmul v v) l l' → norm l = norm l'.
Proof. intros Hsq. unfold norm, dot_sum. rewrite (sum_squares_equal l l' _ Hsq). reflexivity. Qed.

Lemma zip_with_fsub_swap `{!SymLaws F} (a b : list F) :
  Forall2 (λ u v, fmul u u = fmul v v) (zip_with fsub a b) (zip_with fsub b a).
Proof.
  revert b. induction a as [|x a IH]; intros [|y b]; simpl; try constructor.
  - apply fsub_square_sym.
  - apply IH.
Qed.

Lemma broadcast_fsub_swap `{!SymLaws F} (x : F) (b : list F) :
  Forall2 (λ u v, fmul u u = fmul v v)
    ((λ y, fsub x y) <$> b) ((λ y, fsub y x) <$> b).
Proof.
  induction b as [|y b IH]; simpl; constructor; [apply fsub_square_sym|exact IH].
Qed.

Lemma broadcast_fsub_swap_r `{!SymLaws F} (x : F) (b : list F) :
  Forall2 (λ u v, fmul u u = fmul v v)
    ((λ y, fsub y x) <$> b) ((λ y, fsub x y) <$> b).
Proof.
  induction b as [|y b IH]; simpl; constructor; [apply fsub_square_sym|exact IH].
Qed.

Lemma broadcast_sub_swap `{!SymLaws F} (a b : list F) :
  match broadcast_sub a b, broadcast_sub b a with
  | Ok d, Ok d' => norm d = norm d'
  | Raise e, Raise e' =>
      e = CannotBroadcast (length a) (length b) ∧
      e' = CannotBroadcast (length b) (length a)
  | _, _ => False
  end.
Proof.
  unfold broadcast_sub.
  destruct (decide (length a = length b)) as [Heq|Hne].
  - destruct (decide (length b = length a)); [|congruence].
    apply norm_equal_squares, zip_with_fsub_swap.
  - destruct (decide (length b = length a)); [congruence|].
    destruct a as [|x [|x' a]], b as [|y [|y' b]]; simpl in *;
      try congruence; try (split; reflexivity);
      try (apply norm_equal_squares; apply Forall2_nil).
    + apply norm_equal_squares. apply (broadcast_fsub_swap x (y :: y' :: b)).
    + apply norm_equal_squares. apply (broadcast_fsub_swap_r y (x :: x' :: a)).
Qed.

(** X8.  [l2_distance] is symmetric: swapping the arguments gives the same
    distance, also when a one-element vector is broadcast, and raises
    exactly when the original order raises. *)
Theorem l2_distance_symmetric `{!SymLaws F} (a b : ndarray) :
  (∀ d, l2_distance (F := F) a b = Ok d ↔ l2_distance b a = Ok d) ∧
  (∀ n m, l2_distance (F := F) a b = Raise (CannotBroadcast n m) ↔
          l2_distance (F := F) b a = Raise (CannotBroadcast m n)).
Proof.
  unfold l2_distance.
  pose proof (broadcast_sub_swap (values a) (values b)) as Hswap.
  destruct (broadcast_sub (values a) (values b)) as [d1|e1],
    (broadcast_sub (values b) (values a)) as [d2|e2]; simpl;
    try contradiction.
  - rewrite Hswap. split; [tauto|].
    intros n m. split; discriminate.
  - destruct Hswap as [-> ->]. split.
    + intros d. split; discriminate.
    + intros n m. split; intros [= -> ->]; reflexivity.
Qed.

(** X9.  [cosine_similarity] is symmetric in its arguments, errors included. *)
Theorem cosine_similarity_symmetric `{!SymLaws F} (a b : ndarray) :
  (∀ c, cosine_similarity (F := F) a b = Ok c ↔ cosine_similarity b a = Ok c) ∧
  (∀ n m, cosine_similarity (F := F) a b = Raise (ShapesNotAligned n m) ↔
          cosine_similarity (F := F) b a = Raise (ShapesNotAligned m n)).
Proof.
  destruct (decide (length a = length b)) as [Heq|Hne].
  - rewrite (cosine_similarity_aligned a b Heq).
    rewrite (cosine_similarity_aligned b a (eq_sym Heq)).
    rewrite (dot_sum_comm (values a) (values b)).
    rewrite (fmul_comm (norm (values a)) (norm (values b))).
    rewrite (orb_comm (feq (norm (values a)) fzero)).
    split; [tauto|]. intros n m. split; discriminate.
  - rewrite (cosine_similarity_mismatch a b Hne).
    rewrite (cosine_similarity_mismatch b a) by (intros Heq; apply Hne; symmetry; exact Heq).
    split.
    + intros c. split; discriminate.
    + intros n m. split; intros [= -> ->]; reflexivity.
Qed.

Lemma zip_with_fsub_diag (l : list F) :
  (∀ x, x ∈ l → fsub x x = fzero) →
  zip_with fsub l l = replicate (length l) fzero.
Proof.
  induction l as [|x l IH]; intros Hdiag; [reflexivity|].
  simpl. rewrite (Hdiag x) by left. rewrite IH; [reflexivity|].
  intros y Hy. apply Hdiag. right. exact Hy.
Qed.

(** X10.  The distance of a vector to itself is zero when each component
    minus itself is zero, as it is for every finite float. *)
Theorem l2_distance_self `{!ZeroLaws F} (v : ndarray) :
  (∀ x, x ∈ values (F := F) v → fsub x x = fzero) →
  l2_distance (F := F) v v = Ok fzero.
Proof.
  intros Hdiag.
  rewrite l2_distance_aligned by reflexivity.
  rewrite zip_with_fsub_diag by exact Hdiag. unfold norm. rewrite dot_sum_zeros.
  rewrite fsqrt_0. reflexivity.
Qed.

End symmetry.

Import Exact ExactLaws Samples.

#[export] Instance sym_laws : SymLaws Qc.
Proof.
  split; simpl.
  - apply Qcmult_comm.
  - intros x y. ring.
Qed.

(** The distance between [[1.0, 0.0]] and [[0.5, 0.0]], either way. *)
Lemma l2_distance_symmetric_witness :
  l2_distance (F := Qc) [Samples.half; Samples.zero] [Samples.one; Samples.zero] =
  Ok (Q2Qc (1 # 2)).
Proof.
  apply (proj1 (l2_distance_symmetric (F := Qc) [Samples.one; Samples.zero]
                  [Samples.half; Samples.zero]) (Q2Qc (1 # 2))).
  Samples.decided.
Defined.

(** The cosine of [[1.0, 0.0]] and [[0.5, 0.0]], either way. *)
Lemma cosine_similarity_symmetric_witness :
  cosine_similarity (F := Qc) [Samples.half; Samples.zero] [Samples.one; Samples.zero] =
  Ok 1%Qc.
Proof.
  apply (proj1 (cosine_similarity_symmetric (F := Qc) [Samples.one; Samples.zero]
                  [Samples.half; Samples.zero]) 1%Qc).
  Samples.decided.
Defined.

(** The distance of [[1.0, 0.5]] to itself. *)
Lemma l2_distance_self_witness :
  l2_distance (F := Qc) [Samples.one; Samples.half] [Samples.one; Samples.half] = Ok 0%Qc.
Proof.
  refine (l2_distance_self (F := Qc) [Samples.one; Samples.half] _).
  intros x _. simpl. ring.
Defined.

End ScoringMoreFacts.

(** ** More on the retrievals *)

Module RetrievalMoreFacts.
Import Codec Scoring Retriever Ranking RankingFacts RetrieverFacts RetrievalProperties.

(** What fetching the inputs does to the world: one embedding request,
    and one read of the store only when the embedding was obtained. *)
Lemma fetch_effects (query : string) (w : world) :
  let w' := (fetch query w).2 in
  db w' = db w ∧ ollama w' = ollama w ∧ sqlite_fault w' = sqlite_fault w ∧
  stdout w' = stdout w ∧ embed_calls w' = S (embed_calls w) ∧
  db_calls w' = match ollama w (embed_calls w) query with
                | inl _ => db_calls w
                | inr _ => S (db_calls w)
                end.
Proof.
  rewrite fetch_run.
  destruct (ollama w (embed_calls w) query); simpl; auto 10.
Qed.

Section more.
Context {F : Type} `{Runtime F}.

Lemma retrieval_world (query : string) (top_k : Z) (thr maxd : F) (w : world) :
  (∃ r w', retrieve_similar_chunks query top_k thr w = (Ok r, w') ∧
     db w' = db w ∧ embed_calls w' = S (embed_calls w) ∧
     db_calls w' = match ollama w (embed_calls w) query with
                   | inl _ => db_calls w
                   | inr _ => S (db_calls w)
                   end ∧
     (stdout w' = stdout w ∨
      ∃ e, stdout w' = stdout w ++ [Print "Error in similarity search: " e])) ∧
  (∃ r w', retrieve_by_l2_distance query top_k maxd w = (Ok r, w') ∧
     db w' = db w ∧ embed_calls w' = S (embed_calls w) ∧
     db_calls w' = match ollama w (embed_calls w) query with
                   | inl _ => db_calls w
                   | inr _ => S (db_calls w)
                   end ∧
     (stdout w' = stdout w ∨
      ∃ e, stdout w' = stdout w ++ [Print "Error in L2 distance search: " e])).
Proof.
  pose proof (fetch_effects query w) as (Hdb & _ & _ & Hs & He & Hd).
  split.
  - rewrite retrieve_similar_chunks_run.
    destruct (fetch query w) as [[[qe cs]|e] w'] eqn:Hf; simpl in *.
    + destruct (score_chunks cosine_similarity qe cs) as [sims|e];
        eexists _, _; (split; [reflexivity|]); simpl;
        (split; [exact Hdb|]); (split; [exact He|]); (split; [exact Hd|]).
      * left. exact Hs.
      * right. exists e. rewrite Hs. reflexivity.
    + eexists _, _. split; [reflexivity|]. simpl.
      split; [exact Hdb|]. split; [exact He|]. split; [exact Hd|].
      right. exists e. rewrite Hs. reflexivity.
  - rewrite retrieve_by_l2_distance_run.
    destruct (fetch query w) as [[[qe cs]|e] w'] eqn:Hf; simpl in *.
    + destruct (score_chunks l2_distance qe cs) as [dists|e];
        eexists _, _; (split; [reflexivity|]); simpl;
        (split; [exact Hdb|]); (split; [exact He|]); (split; [exact Hd|]).
      * left. exact Hs.
      * right. exists e. rewrite Hs. reflexivity.
    + eexists _, _. split; [reflexivity|]. simpl.
      split; [exact Hdb|]. split; [exact He|]. split; [exact Hd|].
      right. exists e. rewrite Hs. reflexivity.
Qed.

(** X11.  A retrieval never writes to the store: it asks for exactly one
    embedding, reads the store once and only when the embedding was
    obtained, prints at most one line, and returns. *)
Theorem retrieval_effects (query : string) (top_k : Z) (thr maxd : F) (w : world) :
  (∃ r w', retrieve_similar_chunks query top_k thr w = (Ok r, w') ∧
     db w' = db w ∧ embed_calls w' = S (embed_calls w) ∧
     db_calls w' = match ollama w (embed_calls w) query with
                   | inl _ => db_calls w
                   | inr _ => S (db_calls w)
                   end ∧
     (stdout w' = stdout w ∨
      ∃ e, stdout w' = stdout w ++ [Print "Error in similarity search: " e])) ∧
  (∃ r w', retrieve_by_l2_distance query top_k maxd w = (Ok r, w') ∧
     db w' = db w ∧ embed_calls w' = S (embed_calls w) ∧
     db_calls w' = match ollama w (embed_calls w) query with
                   | inl _ => db_calls w
                   | inr _ => S (db_calls w)
                   end ∧
     (stdout w' = stdout w ∨
      ∃ e, stdout w' = stdout w ++ [Print "Error in L2 distance search: " e])).
Proof. apply retrieval_world. Qed.


(** X13.  A smaller [top_k] returns a prefix: for [0 <= k <= k'] each basic
    retrieval with [top_k = k] returns the first [k] entries of what it
    returns with [top_k = k'], and leaves the same world. *)
Theorem smaller_top_k_is_prefix (query : string) (k k' : Z) (thr maxd : F) (w : world) :
  0 ≤ k ≤ k' →
  (∃ r w', retrieve_similar_chunks query k' thr w = (Ok r, w') ∧
     retrieve_similar_chunks query k thr w = (Ok (take (Z.to_nat k) r), w')) ∧
  (∃ r w', retrieve_by_l2_distance query k' maxd w = (Ok r, w') ∧
     retrieve_by_l2_distance query k maxd w = (Ok (take (Z.to_nat k) r), w')).
Proof.
  intros Hk.
  assert (Htake : ∀ l : list (scored (F := F)),
            Py.slice_to l k = take (Z.to_nat k) (Py.slice_to l k')).
  { intros l. rewrite !slice_to_nonneg by lia. rewrite take_take.
    f_equal. lia. }
  split.
  - rewrite !retrieve_similar_chunks_run.
    destruct (fetch query w) as [[[qe cs]|e] w'].
    + destruct (score_chunks cosine_similarity qe cs) as [sims|e];
        eexists _, _; (split; [reflexivity|]).
      * rewrite Htake. reflexivity.
      * rewrite take_nil. reflexivity.
    + eexists _, _. split; [reflexivity|]. rewrite take_nil. reflexivity.
  - rewrite !retrieve_by_l2_distance_run.
    destruct (fetch query w) as [[[qe cs]|e] w'].
    + destruct (score_chunks l2_distance qe cs) as [dists|e];
        eexists _, _; (split; [reflexivity|]).
      * rewrite Htake. reflexivity.
      * rewrite take_nil. reflexivity.
    + eexists _, _. split; [reflexivity|]. rewrite take_nil. reflexivity.
Qed.

Lemma id_of_combine (C L : list scored) (cd ld : gmap Z F) (cw lw : F) (i : Z) :
  id_of (combine C L cd ld cw lw i) = i.
Proof. reflexivity. Qed.



(** X15.  The handler of [hybrid_search] never runs: the world it leaves is the
    one its two retrievals leave, so it asks for two embeddings, does not
    change the store, and prints only what the retrievals print. *)
Theorem hybrid_search_effects (query : string) (top_k : Z) (cw lw : F) (w : world) :
  ∃ r w', hybrid_search query top_k cw lw w = (Ok r, w') ∧
    w' = (retrieve_by_l2_distance query (top_k * 2) finf
            (retrieve_similar_chunks query (top_k * 2) fzero w).2).2 ∧
    db w' = db w ∧
    embed_calls w' = S (S (embed_calls w)) ∧
    ∃ out, stdout w' = stdout w ++ out ∧
      ∀ p, p ∈ out →
        ∃ e, p = Print "Error in similarity search: " e ∨
             p = Print "Error in L2 distance search: " e.
Proof.
  destruct (retrieval_world query (top_k * 2) fzero finf w)
    as [(C & w1 & H1 & Hdb1 & He1 & _ & Hs1) _].
  destruct (retrieval_world query (top_k * 2) fzero finf w1)
    as [_ (L & w2 & H2 & Hdb2 & He2 & _ & Hs2)].
  rewrite (hybrid_search_run _ _ _ _ _ _ _ _ _ H1 H2).
  eexists _, w2. split; [reflexivity|]. rewrite H1. simpl. rewrite H2. simpl.
  split; [reflexivity|]. split; [congruence|]. split; [congruence|].
  destruct Hs1 as [Hs1 | [e1 Hs1]], Hs2 as [Hs2 | [e2 Hs2]];
    rewrite Hs2, Hs1.
  - exists []. split; [rewrite app_nil_r; reflexivity|].
    intros p Hp. inversion Hp.
  - eexists [_]. split; [reflexivity|].
    intros p Hp. apply list_elem_of_singleton in Hp as ->. eauto.
  - eexists [_]. split; [reflexivity|].
    intros p Hp. apply list_elem_of_singleton in Hp as ->. eauto.
  - eexists [_; _]. split; [rewrite <- app_assoc; reflexivity|].
    intros p Hp. apply elem_of_cons in Hp as [-> | Hp]; [eauto|].
    apply list_elem_of_singleton in Hp as ->. eauto.
Qed.

Lemma context_parts_app (chunks1 chunks2 : list scored) (cur max_length : Z) :
  context_parts chunks1 cur max_length = chunk_with_score <$> chunks1 →
  context_parts (chunks1 ++ chunks2) cur max_length =
  (chunk_with_score <$> chunks1) ++
  context_parts chunks2
    (cur + foldr (λ p n, len p + n) 0 (chunk_with_score <$> chunks1)) max_length.
Proof.
  revert cur. induction chunks1 as [|x chunks1 IH]; intros cur Hall; simpl.
  - rewrite Z.add_0_r. reflexivity.
  - simpl in Hall.
    destruct (decide (cur + len (chunk_with_score x) > max_length)); [discriminate|].
    injection Hall as Hall. rewrite (IH _ Hall). rewrite Z.add_assoc. reflexivity.
Qed.

(** X16.  [build_context_from_chunks] stops at the first chunk that does not
    fit: when the chunks before it all fit and it does not, the context is
    made of the chunks before it, whatever follows, even chunks short
    enough to fit. *)
Theorem build_context_stops_at_overflow (chunks1 chunks2 : list scored) (x : scored)
    (max_length : Z) :
  context_parts chunks1 0 max_length = chunk_with_score <$> chunks1 →
  foldr (λ p n, len p + n) 0 (chunk_with_score <$> chunks1)
    + len (chunk_with_score x) > max_length →
  build_context_from_chunks (chunks1 ++ x :: chunks2) max_length =
  join blank_line (chunk_with_score <$> chunks1).
Proof.
  intros Hfit Hover.
  assert (Hparts : context_parts (chunks1 ++ x :: chunks2) 0 max_length =
                   chunk_with_score <$> chunks1).
  { rewrite (context_parts_app _ _ _ _ Hfit). simpl.
    destruct (decide (_ > max_length)); [apply app_nil_r|lia]. }
  unfold build_context_from_chunks.
  destruct (chunks1 ++ x :: chunks2) eqn:Happ.
  - destruct chunks1; discriminate.
  - rewrite Hparts. reflexivity.
Qed.

(** X17.  The context keeps a prefix of the formatted chunks.  For a bound that
    is not negative its length exceeds the bound by at most the two
    characters of each separator, so that a context of at most one part
    respects the bound. *)
Theorem context_overshoot (chunks : list scored) (max_length : Z) :
  0 ≤ max_length →
  let parts := context_parts chunks 0 max_length in
  parts = take (length parts) (chunk_with_score <$> chunks) ∧
  build_context_from_chunks chunks max_length = join blank_line parts ∧
  len (build_context_from_chunks chunks max_length) ≤
    max_length + 2 * Z.of_nat (length parts - 1) ∧
  ((length parts ≤ 1)%nat →
   len (build_context_from_chunks chunks max_length) ≤ max_length).
Proof.
  intros Hmax parts.
  assert (Hjoin : build_context_from_chunks chunks max_length = join blank_line parts).
  { unfold build_context_from_chunks, parts. destruct chunks; reflexivity. }
  assert (Hbound : len (build_context_from_chunks chunks max_length) ≤
                   max_length + 2 * Z.of_nat (length parts - 1)).
  { destruct parts as [|p rest] eqn:Hparts.
    - rewrite Hjoin. simpl. unfold len. simpl. lia.
    - rewrite <- Hparts.
      apply (RetrievalProperties.build_context_length chunks max_length).
      fold parts. rewrite Hparts. discriminate. }
  split; [exact (proj1 (RetrievalProperties.context_parts_bound chunks 0 max_length))|].
  split; [exact Hjoin|]. split; [exact Hbound|].
  intros Hone. replace (length parts - 1)%nat with 0%nat in Hbound by lia. lia.
Qed.

End more.

Import Exact ExactLaws Samples.

(** Two stored chunks with [top_k] 1 and 2. *)
Lemma smaller_top_k_is_prefix_witness :
  let w := world_of two_chunks (always [one; zero]) in
  ∃ r w', retrieve_similar_chunks "q" 2 (Q2Qc (1 # 2)) w = (Ok r, w') ∧
    retrieve_similar_chunks "q" 1 (Q2Qc (1 # 2)) w = (Ok (take 1 r), w').
Proof.
  intros w.
  exact (proj1 (smaller_top_k_is_prefix (F := Qc) "q" 1 2 (Q2Qc (1 # 2)) 0%Qc w
                  ltac:(lia))).
Defined.



(** A first part of 20 characters under the bound 30: the second part
    does not fit, and a third, empty-texted one is not looked at. *)
Lemma build_context_stops_at_overflow_witness :
  build_context_from_chunks
    ([(1, "AAAAA", 1%Qc)] ++ (2, "BBBBB", Q2Qc (9 # 10)) :: [(3, "", 0%Qc)]) 30 =
  "[Score: 1.000] AAAAA".
Proof.
  refine (build_context_stops_at_overflow (F := Qc) [(1, "AAAAA", 1%Qc)]
            [(3, "", 0%Qc)] (2, "BBBBB", Q2Qc (9 # 10)) 30 _ _).
  - reflexivity.
  - vm_compute. reflexivity.
Defined.

(** The context of two parts of 20 characters under the bound 40. *)
Lemma context_overshoot_witness :
  len (build_context_from_chunks
         [(1, "AAAAA", 1%Qc); (2, "BBBBB", Q2Qc (9 # 10))] 40) ≤ 40 + 2 * 1.
Proof.
  refine (proj1 (proj2 (proj2 (context_overshoot (F := Qc)
                   [(1, "AAAAA", 1%Qc); (2, "BBBBB", Q2Qc (9 # 10))] 40 _)))).
  lia.
Defined.

End RetrievalMoreFacts.

(** ** The conversation history of [ChatManager] *)

Module HistoryFacts.
Import History.

(** X18.  [get_conversation_history(limit)] returns the last [limit] turns, or
    all of them when fewer are kept, for a limit of at least 1; with
    limit 0 it returns the whole history, since [-0] is 0 and [l[0:]] is
    [l]; with a negative limit it drops the first [-limit] turns.  The
    turn just added is the last one, and a cleared history is empty. *)
Theorem conversation_history_limit {T} (history : list (turn T)) (limit : Z) :
  (1 ≤ limit →
   length (get_conversation_history history limit) =
     Nat.min (Z.to_nat limit) (length history) ∧
   ∃ older, history = older ++ get_conversation_history history limit) ∧
  get_conversation_history history 0 = history ∧
  (limit < 0 →
   get_conversation_history history limit = drop (Z.to_nat (- limit)) history) ∧
  (∀ u b now,
     get_conversation_history (add_to_history history u b now) 1 = [(u, b, now)]) ∧
  get_conversation_history (clear_history history) limit = [].
Proof.
  assert (Hpos : ∀ (h : list (turn T)) k, 1 ≤ k →
            get_conversation_history h k = drop (length h - Z.to_nat k) h).
  { intros h k Hk. unfold get_conversation_history, slice_from.
    destruct h as [|t h]; [reflexivity|].
    destruct (decide (- k < 0)); [|lia].
    rewrite Z.opp_involutive. reflexivity. }
  split; [|split; [|split; [|split]]].
  - intros Hl. rewrite Hpos by exact Hl. split.
    + rewrite length_drop. lia.
    + exists (take (length history - Z.to_nat limit) history).
      symmetry. apply take_drop.
  - unfold get_conversation_history, slice_from. destruct history; reflexivity.
  - intros Hl. unfold get_conversation_history, slice_from.
    destruct history as [|t h]; [rewrite drop_nil; reflexivity|].
    destruct (decide (- limit < 0)); [lia|reflexivity].
  - intros u b now. rewrite Hpos by lia. unfold add_to_history.
    rewrite length_app. simpl.
    replace (length history + 1 - Z.to_nat 1)%nat with (length history) by lia.
    rewrite drop_app_length. reflexivity.
  - reflexivity.
Qed.

(** The last two of three turns. *)
Lemma conversation_history_limit_witness :
  length (get_conversation_history
            [("a", "A", 1%nat); ("b", "B", 2%nat); ("c", "C", 3%nat)] 2) = 2%nat.
Proof.
  exact (proj1 (proj1 (conversation_history_limit
                         [("a", "A", 1%nat); ("b", "B", 2%nat); ("c", "C", 3%nat)] 2)
                  ltac:(lia))).
Defined.

End HistoryFacts.

(** ** Batches of embeddings *)

Module BatchFacts.
Import Codec Retriever Batch.

Lemma replies_app (w : world) (k : nat) (l1 l2 : list string) :
  replies w k (l1 ++ l2) = replies w k l1 ++ replies w (length l1 + k) l2.
Proof.
  revert k. induction l1 as [|t l1 IH]; intros k; [reflexivity|].
  simpl. rewrite IH. repeat f_equal. lia.
Qed.

Lemma failures_app (w : world) (k : nat) (l1 l2 : list string) :
  failures w k (l1 ++ l2) = failures w k l1 ++ failures w (length l1 + k) l2.
Proof.
  revert k. induction l1 as [|t l1 IH]; intros k; [reflexivity|].
  simpl. rewrite IH, <- app_assoc. repeat f_equal. lia.
Qed.

Lemma replies_ext (w w' : world) (k : nat) (l : list string) :
  ollama w' = ollama w → replies w' k l = replies w k l.
Proof.
  intros Ho. revert k. induction l as [|t l IH]; intros k; [reflexivity|].
  simpl. rewrite Ho, IH. reflexivity.
Qed.

Lemma failures_ext (w w' : world) (k : nat) (l : list string) :
  ollama w' = ollama w → failures w' k l = failures w k l.
Proof.
  intros Ho. revert k. induction l as [|t l IH]; intros k; [reflexivity|].
  simpl. rewrite Ho, IH. reflexivity.
Qed.

Lemma length_replies (w : world) (k : nat) (l : list string) :
  length (replies w k l) = length l.
Proof. revert k. induction l as [|t l IH]; intros k; simpl; [|rewrite IH]; reflexivity. Qed.

Lemma embed_or_zeros_run (text : string) (w : world) :
  embed_or_zeros text w =
  match ollama w (embed_calls w) text with
  | inr v => (Ok v, tick_embed w)
  | inl cause =>
      (Ok zeros_4096,
       emit (Print "Error embedding text: " (EmbeddingError cause)) (tick_embed w))
  end.
Proof.
  unfold embed_or_zeros, try_except, get_embedding, bind, print, ret.
  destruct (ollama w (embed_calls w) text); reflexivity.
Qed.

Lemma mapM_cons {A B} (f : A → M B) (x : A) (l : list A) (w : world) :
  mapM f (x :: l) w =
  match f x w with
  | (Ok y, w1) =>
      match mapM f l w1 with
      | (Ok ys, w2) => (Ok (y :: ys), w2)
      | (Raise e, w2) => (Raise e, w2)
      end
  | (Raise e, w1) => (Raise e, w1)
  end.
Proof.
  simpl. unfold bind, ret. destruct (f x w) as [[y|e] w1]; [|reflexivity].
  destruct (mapM f l w1) as [[ys|e] w2]; reflexivity.
Qed.

(** The world after some requests: only the request count and the output
    have changed. *)
Lemma mapM_embed_or_zeros (texts : list string) (w : world) :
  ∃ w', mapM embed_or_zeros texts w = (Ok (replies w (embed_calls w) texts), w') ∧
    db w' = db w ∧ ollama w' = ollama w ∧ sqlite_fault w' = sqlite_fault w ∧
    db_calls w' = db_calls w ∧
    embed_calls w' = (length texts + embed_calls w)%nat ∧
    stdout w' = stdout w ++ failures w (embed_calls w) texts.
Proof.
  revert w. induction texts as [|t texts IH]; intros w.
  - exists w. simpl. rewrite app_nil_r. unfold ret. auto 10.
  - rewrite mapM_cons, embed_or_zeros_run. simpl replies. simpl failures.
    destruct (ollama w (embed_calls w) t) as [cause|v] eqn:Hreply.
    + set (w1 := emit (Print "Error embedding text: " (EmbeddingError cause))
                   (tick_embed w)).
      destruct (IH w1) as (w' & Hrun & Hdb & Ho & Hf & Hd & He & Hs).
      assert (Ho1 : ollama w1 = ollama w) by reflexivity.
      rewrite (replies_ext w w1 _ _ Ho1) in Hrun.
      rewrite (failures_ext w w1 _ _ Ho1) in Hs.
      rewrite Hrun. exists w'. split; [reflexivity|].
      split; [exact Hdb|]. split; [exact Ho|]. split; [exact Hf|].
      split; [exact Hd|]. split; [rewrite He; simpl; lia|].
      rewrite Hs. simpl. rewrite <- app_assoc. reflexivity.
    + set (w1 := tick_embed w).
      destruct (IH w1) as (w' & Hrun & Hdb & Ho & Hf & Hd & He & Hs).
      assert (Ho1 : ollama w1 = ollama w) by reflexivity.
      rewrite (replies_ext w w1 _ _ Ho1) in Hrun.
      rewrite (failures_ext w w1 _ _ Ho1) in Hs.
      rewrite Hrun. exists w'. split; [reflexivity|].
      split; [exact Hdb|]. split; [exact Ho|]. split; [exact Hf|].
      split; [exact Hd|]. split; [rewrite He; simpl; lia|].
      rewrite Hs. reflexivity.
Qed.

Lemma take_add_drop {A} (a b : nat) (l : list A) :
  take a l ++ take b (drop a l) = take (a + b) l.
Proof.
  revert l. induction a as [|a IH]; intros l; [reflexivity|].
  destruct l as [|x l]; simpl; [rewrite take_nil; reflexivity|].
  rewrite IH. reflexivity.
Qed.

Lemma batches_cons (i : Z) (rest : list Z) (texts : list string) (batch_size : Z)
    (acc : list ndarray) (w : world) :
  batches (i :: rest) texts batch_size acc w =
  match mapM embed_or_zeros (slice texts i (i + batch_size)) w with
  | (Ok new, w1) => batches rest texts batch_size (acc ++ new) w1
  | (Raise e, w1) => (Raise e, w1)
  end.
Proof.
  simpl. unfold bind.
  destruct (mapM embed_or_zeros (slice texts i (i + batch_size)) w) as [[new|e] w1];
    reflexivity.
Qed.

(** The batches from number [j] on cover the texts from [j * b] on. *)
Lemma batches_run (b m j : nat) (texts : list string) (acc : list ndarray) (w : world) :
  (0 < b)%nat →
  let rest := take (m * b) (drop (j * b) texts) in
  ∃ w', batches ((λ k, Z.of_nat k * Z.of_nat b) <$> seq j m) texts (Z.of_nat b) acc w =
          (Ok (acc ++ replies w (embed_calls w) rest), w') ∧
    db w' = db w ∧ ollama w' = ollama w ∧ sqlite_fault w' = sqlite_fault w ∧
    db_calls w' = db_calls w ∧
    embed_calls w' = (length rest + embed_calls w)%nat ∧
    stdout w' = stdout w ++ failures w (embed_calls w) rest.
Proof.
  intros Hb. cbv zeta. revert j acc w. induction m as [|m IH]; intros j acc w.
  - exists w. change (take (0 * b) (drop (j * b) texts)) with (@nil string).
    simpl. unfold ret. rewrite !app_nil_r. auto 10.
  - change (seq j (S m)) with (j :: seq (S j) m).
    change (S m * b)%nat with (b + m * b)%nat.
    rewrite fmap_cons, batches_cons.
    assert (Hslice : slice texts (Z.of_nat j * Z.of_nat b)
                       (Z.of_nat j * Z.of_nat b + Z.of_nat b) =
                     take b (drop (j * b) texts)).
    { unfold slice.
      replace (Z.to_nat (Z.of_nat j * Z.of_nat b)) with (j * b)%nat by lia.
      replace (Z.to_nat (Z.of_nat j * Z.of_nat b + Z.of_nat b) - j * b)%nat
        with b by lia.
      reflexivity. }
    rewrite Hslice.
    destruct (mapM_embed_or_zeros (take b (drop (j * b) texts)) w)
      as (w1 & Hrun1 & Hdb1 & Ho1 & Hf1 & Hd1 & He1 & Hs1).
    rewrite Hrun1.
    destruct (IH (S j) (acc ++ replies w (embed_calls w) (take b (drop (j * b) texts))) w1)
      as (w2 & Hrun2 & Hdb2 & Ho2 & Hf2 & Hd2 & He2 & Hs2).
    rewrite Hrun2. exists w2.
    assert (Hrest : take (b + m * b) (drop (j * b) texts) =
                    take b (drop (j * b) texts) ++ take (m * b) (drop (S j * b) texts)).
    { rewrite <- take_add_drop, drop_drop. repeat f_equal. lia. }
    rewrite Hrest, replies_app, failures_app, length_app.
    rewrite (replies_ext w w1 _ _ Ho1) in *.
    rewrite (failures_ext w w1 _ _ Ho1) in *.
    rewrite He1 in *.
    split; [rewrite <- app_assoc; reflexivity|].
    split; [congruence|]. split; [congruence|]. split; [congruence|].
    split; [congruence|]. split; [lia|].
    rewrite Hs2, Hs1, <- app_assoc. reflexivity.
Qed.

Lemma get_embeddings_batch_run (texts : list string) (batch_size : Z) (w : world) :
  (0 < batch_size →
   ∃ w', get_embeddings_batch texts batch_size w =
           (inr (replies w (embed_calls w) texts), w') ∧
     length (replies w (embed_calls w) texts) = length texts ∧
     db w' = db w ∧
     embed_calls w' = (length texts + embed_calls w)%nat ∧
     stdout w' = stdout w ++ failures w (embed_calls w) texts) ∧
  (batch_size < 0 → get_embeddings_batch texts batch_size w = (inr [], w)) ∧
  (batch_size = 0 → get_embeddings_batch texts batch_size w = (inl RangeStepZero, w)).
Proof.
  unfold get_embeddings_batch, range0. split; [|split].
  - intros Hpos.
    destruct (decide (batch_size = 0)); [lia|].
    destruct (decide (0 < batch_size)); [|lia].
    set (total := Z.of_nat (length texts)).
    set (count := Z.to_nat ((total + batch_size - 1) / batch_size)).
    assert (Hcover : (length texts ≤ count * Z.to_nat batch_size)%nat).
    { pose proof (Z.div_mod (total + batch_size - 1) batch_size ltac:(lia)) as Hdm.
      pose proof (Z.mod_pos_bound (total + batch_size - 1) batch_size Hpos) as Hmod.
      assert (0 ≤ (total + batch_size - 1) / batch_size) by (apply Z.div_pos; lia).
      unfold count, total in *. nia. }
    destruct (batches_run (Z.to_nat batch_size) count 0 texts [] w ltac:(lia))
      as (w' & Hrun & Hdb & _ & _ & _ & He & Hs).
    rewrite Z2Nat.id in Hrun by lia. simpl in Hrun. rewrite Hrun.
    rewrite take_ge in * by (rewrite ?length_drop; simpl; lia).
    exists w'. split; [reflexivity|].
    split; [apply length_replies|]. auto.
  - intros Hneg.
    destruct (decide (batch_size = 0)); [lia|].
    destruct (decide (0 < batch_size)); [lia|].
    assert (Hq : (- Z.of_nat (length texts) - batch_size - 1) / - batch_size ≤ 0).
    { apply Z.lt_succ_r. apply Z.div_lt_upper_bound; lia. }
    replace (Z.to_nat ((- Z.of_nat (length texts) - batch_size - 1) / - batch_size))
      with 0%nat by lia.
    reflexivity.
  - intros ->. reflexivity.
Qed.

(** X19.  [get_embeddings_batch] with a positive batch size makes one request
    per text, in order, and returns one vector per text: the reply, or
    4096 zeros where the request failed, with one line printed per
    failure; it never raises and leaves the store alone.  With a negative
    batch size it returns no vector at all without a request, and with
    batch size 0 it raises the [ValueError] of [range]. *)
Theorem get_embeddings_batch_outcome (texts : list string) (batch_size : Z) (w : world) :
  (0 < batch_size →
   ∃ w', get_embeddings_batch texts batch_size w =
           (inr (replies w (embed_calls w) texts), w') ∧
     length (replies w (embed_calls w) texts) = length texts ∧
     db w' = db w ∧
     embed_calls w' = (length texts + embed_calls w)%nat ∧
     stdout w' = stdout w ++ failures w (embed_calls w) texts) ∧
  (batch_size < 0 → get_embeddings_batch texts batch_size w = (inr [], w)) ∧
  (batch_size = 0 → get_embeddings_batch texts batch_size w = (inl RangeStepZero, w)).
Proof. apply get_embeddings_batch_run. Qed.

(** Three texts in batches of two, the second request failing. *)
Lemma get_embeddings_batch_outcome_witness :
  let w := Samples.world_of Db.init
             (λ n _, match n with
                     | 1%nat => inl "timeout"
                     | _ => inr [Samples.one]
                     end) in
  ∃ w', get_embeddings_batch ["a"; "b"; "c"] 2 w =
          (inr [[Samples.one]; zeros_4096; [Samples.one]], w') ∧
    stdout w' = [Print "Error embedding text: " (EmbeddingError "timeout")].
Proof.
  intros w.
  destruct (proj1 (get_embeddings_batch_outcome ["a"; "b"; "c"] 2 w) ltac:(lia))
    as (w' & Hrun & _ & _ & _ & Hs).
  exists w'. split; [exact Hrun|exact Hs].
Defined.

End BatchFacts.

(** ** Statistics *)

Module StatisticsFacts.
Import Codec Retriever Statistics.

Lemma rmap_list_length {A B} (f : A → result B) (l : list A) (ys : list B) :
  rmap_list f l = Ok ys → length ys = length l.
Proof.
  revert ys. induction l as [|x l IH]; intros ys; simpl.
  - intros [= <-]. reflexivity.
  - destruct (f x) as [y|e]; simpl; [|discriminate].
    destruct (rmap_list f l) as [ys'|e]; simpl; [|discriminate].
    intros [= <-]. simpl. f_equal. auto.
Qed.

Section statistics_facts.
Context `{SqlOrder} `{!SqlOrderLaws}.

(** X20.  [get_document_statistics] counts the document rows and the chunk rows
    when both reads succeed; when the store cannot be read, at the first
    read or at the second, or one embedding blob does not decode, it
    reports an error with no documents and no chunks, whatever the store
    holds.  It requests no embedding and leaves the store alone. *)
Theorem document_statistics (w : world) :
  let out := get_document_statistics w in
  let st := out.1 in
  db out.2 = db w ∧ embed_calls out.2 = embed_calls w ∧ stdout out.2 = stdout w ∧
  (sqlite_fault w (db_calls w) = None →
   sqlite_fault w (S (db_calls w)) = None →
   (∀ cs, Db.get_all_chunks (db w) = Ok cs →
      error st = None ∧
      total_documents st = length (Db.documents (db w)) ∧
      total_chunks st = length (Db.chunks (db w)) ∧
      documents_listed st = DbQueries.get_documents (db w)) ∧
   (∀ e, Db.get_all_chunks (db w) = Raise e →
      error st = Some e ∧ total_documents st = 0%nat ∧ total_chunks st = 0%nat ∧
      documents_listed st = [])) ∧
  (∀ msg, sqlite_fault w (db_calls w) = Some msg →
     error st = Some (SqliteError msg) ∧ total_documents st = 0%nat ∧
     total_chunks st = 0%nat ∧ documents_listed st = []) ∧
  (∀ msg, sqlite_fault w (db_calls w) = None →
     sqlite_fault w (S (db_calls w)) = Some msg →
     error st = Some (SqliteError msg) ∧ total_documents st = 0%nat ∧
     total_chunks st = 0%nat ∧ documents_listed st = []).
Proof.
  intros out st. subst st out.
  unfold get_document_statistics, bind, get_documents, get_all_chunks, ret. simpl.
  destruct (sqlite_fault w (db_calls w)) as [msg|] eqn:Hf1; simpl.
  - split; [reflexivity|]. split; [reflexivity|]. split; [reflexivity|].
    split; [discriminate|]. split; [|intros msg' Hnone; discriminate].
    intros msg' [= <-]. auto.
  - destruct (sqlite_fault w (S (db_calls w))) as [msg|] eqn:Hf2; simpl.
    + split; [reflexivity|]. split; [reflexivity|]. split; [reflexivity|].
      split; [intros _ Hnone; discriminate|]. split; [discriminate|].
      intros msg' _ [= <-]. auto.
    + destruct (Db.get_all_chunks (db w)) as [cs|e] eqn:Hcs; simpl.
      * split; [reflexivity|]. split; [reflexivity|]. split; [reflexivity|].
        split; [|split; [discriminate|intros msg' _ Hsome; discriminate]].
        intros _ _. split; [|discriminate].
        intros cs' [= <-]. split; [reflexivity|]. split.
        -- unfold DbQueries.get_documents.
           rewrite length_fmap, (Permutation_length (order_documents_perm _)).
           reflexivity.
        -- split; [|reflexivity]. apply (rmap_list_length _ _ _ Hcs).
      * split; [reflexivity|]. split; [reflexivity|]. split; [reflexivity|].
        split; [|split; [discriminate|intros msg' _ Hsome; discriminate]].
        intros _ _. split; [discriminate|].
        intros e' [= <-]. auto.
Qed.

End statistics_facts.

Import DbMoreFacts Samples MoreSamples.

(** A store with one document whose only embedding blob has five bytes:
    the statistics report no document. *)
Lemma document_statistics_witness :
  let st := (get_document_statistics (H := newest_first)
               (world_of torn_blob (always []))).1 in
  error st = Some (BufferSize 5) ∧ total_documents st = 0%nat.
Proof.
  intros st.
  destruct (document_statistics (H := newest_first) (world_of torn_blob (always [])))
    as (_ & _ & _ & Hread & _).
  destruct (Hread eq_refl eq_refl) as [_ Hbad].
  destruct (Hbad (BufferSize 5) eq_refl) as (He & Hd & _).
  split; [exact He|exact Hd].
Defined.

End StatisticsFacts.

(** ** The upload round *)

Module UploadFacts.
Import Codec Db Retriever Batch Upload BatchFacts.

Lemma get_document_chunks_add_chunk (s : Db.t) (d : Z) (text : string) (v : ndarray) :
  Forall is_f32 v →
  ∃ id, get_document_chunks (add_chunk s d text v) d =
        rbind (get_document_chunks s d) (λ old, Ok (old ++ [(id, text, v)])).
Proof.
  intros Hv. eexists. unfold get_document_chunks, add_chunk. simpl chunks.
  rewrite filter_app, filter_cons_True, filter_nil by reflexivity.
  rewrite rmap_list_app. simpl rmap_list.
  rewrite DbFacts.decode_row_tobytes by exact Hv. simpl.
  destruct (rmap_list decode_row _); reflexivity.
Qed.

Lemma store_chunks_frame (d : Z) (pairs : list (string * ndarray)) (s : Db.t) :
  documents (store_chunks d pairs s) = documents s ∧
  chats (store_chunks d pairs s) = chats s.
Proof.
  unfold store_chunks. revert s. induction pairs as [|p pairs IH]; intros s; simpl.
  - auto.
  - destruct (IH (add_chunk s d p.1 p.2)) as [-> ->]. auto.
Qed.

Lemma store_chunks_read (d : Z) (pairs : list (string * ndarray)) (s : Db.t)
    (old : list (Z * string * ndarray)) :
  Forall (λ p, Forall is_f32 p.2) pairs →
  get_document_chunks s d = Ok old →
  ∃ new, get_document_chunks (store_chunks d pairs s) d = Ok (old ++ new) ∧
         (λ x, (x.1.2, x.2)) <$> new = pairs.
Proof.
  intros Hall. revert s old.
  induction Hall as [|p pairs Hp _ IH]; intros s old Hold.
  - exists []. rewrite app_nil_r. auto.
  - change (store_chunks d (p :: pairs) s)
      with (store_chunks d pairs (add_chunk s d p.1 p.2)).
    destruct (get_document_chunks_add_chunk s d p.1 p.2 Hp) as [id Hadd].
    rewrite Hold in Hadd. simpl in Hadd.
    destruct (IH _ _ Hadd) as (new & Hrun & Hnew).
    exists ((id, p.1, p.2) :: new). split.
    + rewrite Hrun, <- app_assoc. reflexivity.
    + rewrite fmap_cons, Hnew. destruct p. reflexivity.
Qed.

Lemma Forall_replies (w : world) (k : nat) (texts : list string) :
  (∀ n text v, ollama w n text = inr v → Forall is_f32 v) →
  Forall (Forall is_f32) (replies w k texts).
Proof.
  intros Hservice. revert k. induction texts as [|t texts IH]; intros k; simpl.
  - constructor.
  - constructor; [|apply IH].
    destruct (ollama w k t) as [cause|v] eqn:Hr; [|eapply Hservice; exact Hr].
    unfold zeros_4096. apply Forall_replicate. unfold is_f32. lia.
Qed.

(** X21.  One round of the upload loop.  A file without chunks changes
    nothing.  Otherwise the round adds one document row under a fresh id
    and, when the service answers with float32 vectors and no chunk
    already carries that id, the chunks read back for the document are
    the uploaded texts, in order, each with the vector the service gave
    for it, or with 4096 zeros where its request failed. *)
Theorem upload_round (file_name now : string) (chunks : list string) (w : world) :
  upload file_name now [] w = (inr None, w) ∧
  (chunks ≠ [] →
   (∀ n text v, ollama w n text = inr v → Forall is_f32 v) →
   (∀ r, r ∈ Db.chunks (db w) → c_doc_id r ≠ (add_document (db w) file_name now).2) →
   let doc_id := (add_document (db w) file_name now).2 in
   ∃ w' stored,
     upload file_name now chunks w = (inr (Some doc_id), w') ∧
     documents (db w') = documents (add_document (db w) file_name now).1 ∧
     get_document_chunks (db w') doc_id = Ok stored ∧
     (λ x, (x.1.2, x.2)) <$> stored = zip chunks (replies w (embed_calls w) chunks) ∧
     length stored = length chunks).
Proof.
  split; [reflexivity|].
  intros Hne Hservice Hfresh doc_id.
  unfold upload. destruct chunks as [|c chunks]; [contradiction|].
  set (texts := c :: chunks) in *.
  destruct (add_document (db w) file_name now) as [s1 d] eqn:Hadd.
  simpl in doc_id, Hfresh. subst doc_id.
  destruct (proj1 (get_embeddings_batch_run texts 10 (set_db s1 w)) ltac:(lia))
    as (w1 & Hrun & Hlen & Hdb & _ & _).
  rewrite Hrun. simpl in Hdb.
  change (embed_calls (set_db s1 w)) with (embed_calls w) in *.
  rewrite (replies_ext w (set_db s1 w) _ _ eq_refl) in *.
  assert (Hold : get_document_chunks s1 d = Ok []).
  { unfold get_document_chunks.
    assert (Hs1 : Db.chunks s1 = Db.chunks (db w)).
    { unfold add_document in Hadd. injection Hadd as <- _. reflexivity. }
    rewrite Hs1, DbFacts.filter_none; [reflexivity|].
    intros r Hr Heq. exact (Hfresh r Hr Heq). }
  destruct (store_chunks_read d (zip texts (replies w (embed_calls w) texts)) s1 [])
    as (stored & Hread & Hstored); [|exact Hold|].
  { apply Forall_forall. intros p Hp.
    pose proof (Forall_replies w (embed_calls w) texts Hservice) as Hall.
    rewrite Forall_forall in Hall. apply Hall.
    apply list_elem_of_lookup in Hp as [i Hi].
    apply lookup_zip_with_Some in Hi as (x & y & -> & _ & Hy).
    eapply list_elem_of_lookup_2. exact Hy. }
  exists (set_db (store_chunks d (zip texts (replies w (embed_calls w) texts)) (db w1)) w1),
    stored.
  rewrite Hdb.
  split; [reflexivity|].
  split; [exact (proj1 (store_chunks_frame _ _ _))|].
  split; [exact Hread|]. split; [exact Hstored|].
  rewrite <- (length_fmap (λ x, (x.1.2, x.2)) stored), Hstored.
  rewrite length_zip_with, Hlen. lia.
Qed.

(** A file of two chunks uploaded to an empty store. *)
Lemma upload_round_witness :
  let w := Samples.world_of Db.init (Samples.always [Samples.one]) in
  ∃ w' stored,
    upload "notes.txt" "2024-01-01 00:00:00" ["a"; "b"] w = (inr (Some 1), w') ∧
    get_document_chunks (db w') 1 = Ok stored ∧
    (λ x, (x.1.2, x.2)) <$> stored = [("a", [Samples.one]); ("b", [Samples.one])].
Proof.
  intros w.
  destruct (proj2 (upload_round "notes.txt" "2024-01-01 00:00:00" ["a"; "b"] w))
    as (w' & stored & Hrun & _ & Hread & Hstored & _).
  - discriminate.
  - intros n text v Hv. injection Hv as <-.
    constructor; [|constructor]. unfold is_f32, Samples.one. lia.
  - intros r Hr. inversion Hr.
  - exists w', stored. split; [exact Hrun|]. split; [exact Hread|exact Hstored].
Defined.

End UploadFacts.

(** ** The zero vector of a failed request, from upload to retrieval *)

Module FallbackFacts.
Import Codec Db Scoring Retriever Batch Upload.

Lemma length_zeros_4096 : length zeros_4096 = 4096%nat.
Proof. apply length_replicate. Qed.

Lemma zeros_4096_f32 : Forall is_f32 zeros_4096.
Proof. apply Forall_replicate. unfold is_f32. lia. Qed.

Lemma replies_failure (w : world) (k i : nat) (texts : list string)
    (text cause : string) :
  texts !! i = Some text →
  ollama w (k + i) text = inl cause →
  replies w k texts !! i = Some zeros_4096.
Proof.
  revert k i. induction texts as [|t texts IH]; intros k i Hi Hfail; [inversion Hi|].
  destruct i as [|i]; simpl in *.
  - injection Hi as ->. rewrite Nat.add_0_r in Hfail. rewrite Hfail. reflexivity.
  - apply IH; [exact Hi|]. rewrite <- Hfail. f_equal. lia.
Qed.

Lemma store_chunks_rows (d : Z) (pairs : list (string * ndarray)) (s : Db.t) :
  ∃ rows, chunks (store_chunks d pairs s) = chunks s ++ rows ∧
          c_embedding <$> rows = (λ p, tobytes p.2) <$> pairs.
Proof.
  revert s. induction pairs as [|p pairs IH]; intros s.
  - exists []. rewrite app_nil_r. auto.
  - change (store_chunks d (p :: pairs) s)
      with (store_chunks d pairs (add_chunk s d p.1 p.2)).
    destruct (IH (add_chunk s d p.1 p.2)) as (rows & Hrows & Hblobs).
    eexists (_ :: rows). split.
    + rewrite Hrows. unfold add_chunk at 1. simpl chunks.
      rewrite <- app_assoc. reflexivity.
    + rewrite !fmap_cons, Hblobs. reflexivity.
Qed.

Lemma rmap_list_Ok_image {A B} (f : A → result B) (l : list A) (ys : list B) (x : A) :
  rmap_list f l = Ok ys → x ∈ l → ∃ y, y ∈ ys ∧ f x = Ok y.
Proof.
  revert ys. induction l as [|a l IH]; intros ys; simpl.
  - intros _ Hx. inversion Hx.
  - destruct (f a) as [y0|e] eqn:Hfa; simpl; [|discriminate].
    destruct (rmap_list f l) as [ys'|e]; simpl; [|discriminate].
    intros [= <-] Hx. apply elem_of_cons in Hx as [->|Hx].
    + exists y0. split; [left|exact Hfa].
    + destruct (IH ys' eq_refl Hx) as (y & Hy & Hfx).
      exists y. split; [right; exact Hy|exact Hfx].
Qed.

(** After an upload with a failed request the store holds a row whose
    blob is the encoding of 4096 zeros. *)
Lemma upload_stores_zeros (file_name now : string) (texts : list string)
    (w w' : world) (doc_id : Z) :
  upload file_name now texts w = (inr (Some doc_id), w') →
  (∃ i text cause, texts !! i = Some text ∧
                   ollama w (embed_calls w + i) text = inl cause) →
  ∃ r, r ∈ chunks (db w') ∧ c_embedding r = tobytes zeros_4096.
Proof.
  intros Hup (i & text & cause & Hi & Hfail).
  unfold upload in Hup. destruct texts as [|c texts]; [discriminate|].
  set (all := c :: texts) in *.
  destruct (add_document (db w) file_name now) as [s1 d].
  destruct (proj1 (BatchFacts.get_embeddings_batch_run all 10 (set_db s1 w)) ltac:(lia))
    as (w1 & Hrun & Hlen & _ & _ & _).
  rewrite Hrun in Hup. injection Hup as _ <-.
  change (embed_calls (set_db s1 w)) with (embed_calls w) in *.
  rewrite (BatchFacts.replies_ext w (set_db s1 w) _ _ eq_refl) in *.
  pose proof (replies_failure w (embed_calls w) i all text cause Hi Hfail) as Hzero.
  destruct (store_chunks_rows d (zip all (replies w (embed_calls w) all)) (db w1))
    as (rows & Hrows & Hblobs).
  assert (Hpair : zip all (replies w (embed_calls w) all) !! i = Some (text, zeros_4096)).
  { apply lookup_zip_with_Some. exists text, zeros_4096. auto. }
  assert (Hblob : (c_embedding <$> rows) !! i = Some (tobytes zeros_4096)).
  { rewrite Hblobs, list_lookup_fmap, Hpair. reflexivity. }
  rewrite list_lookup_fmap in Hblob.
  destruct (rows !! i) as [r|] eqn:Hr; [|discriminate].
  exists r. split; [|exact (f_equal (default []) Hblob)].
  change (r ∈ chunks (store_chunks d (zip all (replies w (embed_calls w) all)) (db w1))).
  rewrite Hrows.
  apply elem_of_app. right. eapply list_elem_of_lookup_2. exact Hr.
Qed.

Section fallback.
Context {F : Type} `{Runtime F}.

(** X22.  A request that failed during an upload leaves a chunk stored with
    4096 zeros.  From then on a query whose embedding has another
    dimension finds nothing: [retrieve_similar_chunks] returns the empty
    list and prints an error, whatever else the store holds, and so does
    [retrieve_by_l2_distance] unless the query embedding has one
    element. *)
Theorem failed_embedding_blocks_retrieval (file_name now : string)
    (texts : list string) (w w' : world) (doc_id : Z)
    (query : string) (qe : ndarray) (top_k : Z) (thr maxd : F) :
  upload file_name now texts w = (inr (Some doc_id), w') →
  (∃ i text cause, texts !! i = Some text ∧
                   ollama w (embed_calls w + i) text = inl cause) →
  ollama w' (embed_calls w') query = inr qe →
  length qe ≠ 4096%nat →
  (∃ e w'', retrieve_similar_chunks query top_k thr w' = (Ok [], w'') ∧
            stdout w'' = stdout w' ++ [Print "Error in similarity search: " e]) ∧
  (length qe ≠ 1%nat →
   ∃ e w'', retrieve_by_l2_distance query top_k maxd w' = (Ok [], w'') ∧
            stdout w'' = stdout w' ++ [Print "Error in L2 distance search: " e]).
Proof.
  intros Hup Hfail Hq Hdim.
  destruct (upload_stores_zeros _ _ _ _ _ _ Hup Hfail) as (r & Hr & Hblob).
  assert (Hfetch : (∃ e w1, fetch query w' = (Raise e, w1) ∧ stdout w1 = stdout w') ∨
                   ∃ cs w1 c, fetch query w' = (Ok (qe, cs), w1) ∧ stdout w1 = stdout w' ∧
                              c ∈ cs ∧ c.2 = zeros_4096).
  { rewrite RetrieverFacts.fetch_run, Hq.
    destruct (sqlite_fault w' (db_calls w')) as [msg|]; [left; eauto|].
    destruct (Db.get_all_chunks (db w')) as [cs|e] eqn:Hall; [|left; simpl; eauto].
    right. destruct (rmap_list_Ok_image _ _ _ r Hall Hr) as (c & Hc & Hdec).
    exists cs, (tick_db (tick_embed w')), c. simpl.
    split; [reflexivity|]. split; [reflexivity|]. split; [exact Hc|].
    unfold decode_row in Hdec. rewrite Hblob in Hdec.
    rewrite (CodecFacts.frombuffer_tobytes _ zeros_4096_f32) in Hdec.
    change (Ok (c_chunk_id r, c_text r, zeros_4096) = Ok c) in Hdec.
    assert (Hc2 : (c_chunk_id r, c_text r, zeros_4096) = c) by congruence.
    rewrite <- Hc2. reflexivity. }
  split.
  - rewrite RetrieverFacts.retrieve_similar_chunks_run.
    destruct Hfetch as [(e & w1 & -> & Hout)|(cs & w1 & c & -> & Hout & Hc & Hzero)].
    + exists e. eexists. split; [reflexivity|]. simpl. rewrite Hout. reflexivity.
    + destruct (RetrieverFacts.score_chunks_raises cosine_similarity qe cs)
        as (c' & e & _ & _ & ->).
      { exists c. eexists. split; [exact Hc|].
        apply ScoringFacts.cosine_similarity_mismatch.
        rewrite Hzero, length_zeros_4096. exact Hdim. }
      exists e. eexists. split; [reflexivity|]. simpl. rewrite Hout. reflexivity.
  - intros Hone. rewrite RetrieverFacts.retrieve_by_l2_distance_run.
    destruct Hfetch as [(e & w1 & -> & Hout)|(cs & w1 & c & -> & Hout & Hc & Hzero)].
    + exists e. eexists. split; [reflexivity|]. simpl. rewrite Hout. reflexivity.
    + destruct (RetrieverFacts.score_chunks_raises l2_distance qe cs)
        as (c' & e & _ & _ & ->).
      { exists c. eexists. split; [exact Hc|].
        apply ScoringFacts.l2_distance_mismatch.
        - rewrite Hzero, length_zeros_4096. exact Hdim.
        - exact Hone.
        - rewrite Hzero, length_zeros_4096. lia. }
      exists e. eexists. split; [reflexivity|]. simpl. rewrite Hout. reflexivity.
Qed.

End fallback.

Import Exact Samples.

(** One chunk uploaded while the service is down, then a query whose
    embedding has two elements. *)
Lemma failed_embedding_blocks_retrieval_witness :
  let w := world_of Db.init (down_once [one; zero]) in
  let w' := (upload "notes.txt" "2024-01-01 00:00:00" ["a"] w).2 in
  ∃ e w'', retrieve_similar_chunks (F := Qc) "q" 5 (Q2Qc (1 # 2)) w' = (Ok [], w'') ∧
           stdout w'' = stdout w' ++ [Print "Error in similarity search: " e].
Proof.
  intros w w'.
  refine (proj1 (failed_embedding_blocks_retrieval (F := Qc)
                   "notes.txt" "2024-01-01 00:00:00" ["a"] w w' 1
                   "q" [one; zero] 5 (Q2Qc (1 # 2)) 0%Qc _ _ _ _)).
  - assert (Hid : (upload "notes.txt" "2024-01-01 00:00:00" ["a"] w).1 = inr (Some 1))
      by (vm_compute; reflexivity).
    unfold w'. destruct (upload "notes.txt" "2024-01-01 00:00:00" ["a"] w) as [out w1].
    simpl in Hid. rewrite Hid. reflexivity.
  - exists 0%nat, "a", "connection refused". split; reflexivity.
  - vm_compute. reflexivity.
  - simpl. lia.
Defined.

End FallbackFacts.
